(** * cc-sidecar: session tracker and transcript parser

    A shallow embedding of [internal/session/tracker.go] and
    [internal/session/transcript.go], followed by the properties the
    specification states about them.

    Go values are modelled as follows.
    - [string] is Rocq's [string]: a sequence of bytes, indexed by byte.
    - [time.Time] is an integer number of nanoseconds counted from the zero
      Time; [time.Duration] is an integer number of nanoseconds kept in the
      int64 range by the saturation of [Time.Sub].
    - [map[string]T] is [gmap string T]; a [range] over a map visits the
      entries in an order chosen by the runtime, given as a [RangeOrder].
    - the standard library calls the code makes on file contents
      ([os.Open], [bufio.Scanner], [json.Unmarshal], [time.Parse]) are the
      fields of [Lib] and [FS]; [GoJSON] gives [json.Unmarshal] on parsed
      JSON values. *)

From Stdlib Require Import ZArith Lia Ascii String Sorted.
From stdpp Require Import gmap strings list fin_maps.

Set Warnings "-register-all,-clear-no-such-hyp".

(** ** time *)

Abbreviation Time := Z (only parsing).
Abbreviation Duration := Z (only parsing).

Definition minDuration : Duration := (- 2 ^ 63)%Z.
Definition maxDuration : Duration := (2 ^ 63 - 1)%Z.

Definition Millisecond : Duration := 1000000%Z.
Definition Second : Duration := (1000 * Millisecond)%Z.
Definition Minute : Duration := (60 * Second)%Z.

(** [t.IsZero()] *)
Definition IsZero (t : Time) : bool := (t =? 0)%Z.

(** [t.Sub(u)]: the difference, saturated to the Duration range. *)
Definition Sub (t u : Time) : Duration :=
  Z.max minDuration (Z.min maxDuration (t - u)).

(** [d.Milliseconds()]: integer division truncating toward zero. *)
Definition Milliseconds (d : Duration) : Z := Z.quot d 1000000.

(** ** map iteration order *)

(** The order in which one [for k, v := range m] visits the entries of [m].
    Go leaves it unspecified; every entry is visited once. *)
Record RangeOrder := {
  range_of : ∀ A : Type, gmap string A → list (string * A);
  range_perm : ∀ (A : Type) (m : gmap string A), range_of A m ≡ₚ map_to_list m
}.

Definition range_keys {A} (ro : RangeOrder) (m : gmap string A) : list string :=
  (range_of ro A m).*1.

(** ** strings, paths, runes *)

Definition byte_of (c : ascii) : Z := Z.of_N (N_of_ascii c).

Fixpoint dropWhile {A} (f : A → bool) (l : list A) : list A :=
  match l with
  | [] => []
  | x :: l' => if f x then dropWhile f l' else l
  end.

Fixpoint takeWhile {A} (f : A → bool) (l : list A) : list A :=
  match l with
  | [] => []
  | x :: l' => if f x then x :: takeWhile f l' else []
  end.

Definition isPathSeparator (c : ascii) : bool := Ascii.eqb c "/".

(** [filepath.Base] on Unix: trailing slashes are stripped, the part after
    the last remaining slash is returned; "." for the empty path and "/"
    for a path of slashes only. *)
Definition Base (path : string) : string :=
  if String.eqb path "" then "."
  else
    let stripped := dropWhile isPathSeparator (rev (list_ascii_of_string path)) in
    let last := takeWhile (λ c, negb (isPathSeparator c)) stripped in
    match last with
    | [] => "/"
    | _ => string_of_list_ascii (rev last)
    end.

(** [strings.HasSuffix] *)
Definition HasSuffix (s suffix : string) : bool :=
  (String.length suffix <=? String.length s)%nat &&
  String.eqb (substring (String.length s - String.length suffix)
                        (String.length suffix) s) suffix.

(** [strings.TrimSuffix] *)
Definition TrimSuffix (s suffix : string) : string :=
  if HasSuffix s suffix
  then substring 0 (String.length s - String.length suffix) s
  else s.

(** [s[n:]] for [n <= len(s)] *)
Definition sliceFrom (n : nat) (s : string) : string :=
  substring n (String.length s - n) s.

Definition RuneError : Z := 65533.

Definition isCont (c : ascii) : bool :=
  ((128 <=? byte_of c) && (byte_of c <=? 191))%Z.

Definition between (lo x hi : Z) : bool := ((lo <=? x) && (x <=? hi))%Z.

(** UTF-8 decoding of the rune that starts [s], with its width in bytes, as
    [for i, c := range s] does it: an invalid or truncated encoding yields
    [RuneError] of width 1. *)
Definition decodeRune (s : string) : Z * nat :=
  match s with
  | EmptyString => (RuneError, 0%nat)
  | String c0 rest =>
    let b0 := byte_of c0 in
    if (b0 <? 128)%Z then (b0, 1%nat)
    else if between 194 b0 223 then
      match rest with
      | String c1 _ =>
        if isCont c1
        then (((b0 - 192) * 64 + (byte_of c1 - 128))%Z, 2%nat)
        else (RuneError, 1%nat)
      | _ => (RuneError, 1%nat)
      end
    else if between 224 b0 239 then
      match rest with
      | String c1 (String c2 _) =>
        let lo := if (b0 =? 224)%Z then 160%Z else 128%Z in
        let hi := if (b0 =? 237)%Z then 159%Z else 191%Z in
        if between lo (byte_of c1) hi && isCont c2
        then (((b0 - 224) * 4096 + (byte_of c1 - 128) * 64
               + (byte_of c2 - 128))%Z, 3%nat)
        else (RuneError, 1%nat)
      | _ => (RuneError, 1%nat)
      end
    else if between 240 b0 244 then
      match rest with
      | String c1 (String c2 (String c3 _)) =>
        let lo := if (b0 =? 240)%Z then 144%Z else 128%Z in
        let hi := if (b0 =? 244)%Z then 143%Z else 191%Z in
        if between lo (byte_of c1) hi && isCont c2 && isCont c3
        then (((b0 - 240) * 262144 + (byte_of c1 - 128) * 4096
               + (byte_of c2 - 128) * 64 + (byte_of c3 - 128))%Z, 4%nat)
        else (RuneError, 1%nat)
      | _ => (RuneError, 1%nat)
      end
    else (RuneError, 1%nat)
  end.

(** ** transcript.go: session id from the file name *)

Definition isHyphenPos (i : nat) : bool :=
  (i =? 8)%nat || (i =? 13)%nat || (i =? 18)%nat || (i =? 23)%nat.

Definition isHexRune (c : Z) : bool :=
  between 48 c 57 || between 97 c 102 || between 65 c 70.

(** The body of the loop of [isUUIDLike] at byte index [i] and rune [c]:
    [true] when the loop goes on, [false] when it returns false. *)
Definition uuidRuneOk (i : nat) (c : Z) : bool :=
  if isHyphenPos i then (c =? 45)%Z else isHexRune c.

(** [for i, c := range s] of [isUUIDLike]: [i] is the byte index of the
    rune, [skip] counts the bytes of the current rune still to pass. *)
Fixpoint uuidRange (i skip : nat) (s : string) : bool :=
  match s with
  | EmptyString => true
  | String _ rest =>
    match skip with
    | S k => uuidRange (S i) k rest
    | O =>
      let '(c, w) := decodeRune s in
      if uuidRuneOk i c then uuidRange (S i) (w - 1) rest else false
    end
  end.

Definition isUUIDLike (s : string) : bool :=
  if negb (String.length s =? 36)%nat then false else uuidRange 0 0 s.

Definition extractSessionIDFromPath (path : string) : string :=
  let base := Base path in
  let base := TrimSuffix base ".jsonl" in
  if (36 <=? String.length base)%nat then
    let candidate := sliceFrom (String.length base - 36) base in
    if isUUIDLike candidate then candidate else base
  else base.

Example extractSessionIDFromPath_uuid :
  extractSessionIDFromPath
    "/home/mike/.claude/projects/-home-mike/cfa3335c-ea38-4cf8-a1f2-9e3cf9789708.jsonl"
  = "cfa3335c-ea38-4cf8-a1f2-9e3cf9789708".
Proof. reflexivity. Qed.

Example extractSessionIDFromPath_short :
  extractSessionIDFromPath "/tmp/short.jsonl" = "short".
Proof. reflexivity. Qed.

Example isUUIDLike_tests :
  isUUIDLike "ABCDEF01-2345-6789-ABCD-EF0123456789" = true ∧
  isUUIDLike "cfa3335c_ea38_4cf8_a1f2_9e3cf9789708" = false ∧
  isUUIDLike "" = false ∧
  isUUIDLike "cfa3335c-ea38-4cf8-a1f2-9e3cf978970" = false.
Proof. repeat split; reflexivity. Qed.

(** ** transcript.go: data *)

(** CompletedSession holds parsed info about a completed session. *)
Record CompletedSession := {
  SessionID : string;
  TranscriptPath : string;
  FilesChanged : list string;
  WorkingDir : string;
  DurationMs : Z;
  ExitCode : Z
}.

(** The structs the transcript lines are decoded into. [Raw] is
    [json.RawMessage]. *)
Module jsonlLine.
Record t (Raw : Type) := Build {
  Type_ : string;
  SessionID : string;
  Timestamp : string;
  Message : Raw;
  CWD : string
}.
Arguments Build {Raw}.
Arguments Type_ {Raw}.
Arguments SessionID {Raw}.
Arguments Timestamp {Raw}.
Arguments Message {Raw}.
Arguments CWD {Raw}.
End jsonlLine.

Module messageContent.
Record t (Raw : Type) := Build { Role : string; Content : Raw }.
Arguments Build {Raw}.
Arguments Role {Raw}.
Arguments Content {Raw}.
End messageContent.

Module contentBlock.
Record t (Raw : Type) := Build { Type_ : string; Name : string; Input : Raw }.
Arguments Build {Raw}.
Arguments Type_ {Raw}.
Arguments Name {Raw}.
Arguments Input {Raw}.
End contentBlock.

Module toolInput.
Record t := Build { FilePath : string }.
End toolInput.

(** The standard library as the parser uses it. [Line] is a token of the
    line scanner, [None] is a non-nil [err]. *)
Record Lib (Line Raw : Type) := {
  (** [len(line) == 0] *)
  lineEmpty : Line → bool;
  (** [json.Unmarshal(line, &entry)], [entry] a zero [jsonlLine] *)
  Unmarshal_jsonlLine : Line → option (jsonlLine.t Raw);
  (** [json.Unmarshal(line, &msg)], the [Message] field of the zero [msg] *)
  Unmarshal_message : Line → option (messageContent.t Raw);
  (** [json.Unmarshal(content, &blocks)] *)
  Unmarshal_blocks : Raw → option (list (contentBlock.t Raw));
  (** [json.Unmarshal(block.Input, &input)] *)
  Unmarshal_toolInput : Raw → option toolInput.t;
  (** [time.Parse(time.RFC3339Nano, s)] *)
  time_Parse : string → option Time
}.
Arguments lineEmpty {Line Raw}.
Arguments Unmarshal_jsonlLine {Line Raw}.
Arguments Unmarshal_message {Line Raw}.
Arguments Unmarshal_blocks {Line Raw}.
Arguments Unmarshal_toolInput {Line Raw}.
Arguments time_Parse {Line Raw}.

(** An opened transcript as the scanner delivers it: the lines for which
    [scanner.Scan()] is true, and whether [scanner.Err()] is non-nil at the
    end. *)
Record File (Line : Type) := {
  lines : list Line;
  scanErr : bool
}.
Arguments lines {Line}.
Arguments scanErr {Line}.

(** [os.Open]: [None] when the file cannot be opened. *)
Definition FS (Line : Type) := string → option (File Line).

(** ** transcript.go: extractFileChanges *)

Section Parser.
Context {Line Raw : Type} (lib : Lib Line Raw).

(** One iteration of the loop over [blocks]. *)
Definition blockStep (files : gmap string bool) (block : contentBlock.t Raw)
  : gmap string bool :=
  if negb (String.eqb (contentBlock.Type_ block) "tool_use") then files
  else if negb (String.eqb (contentBlock.Name block) "Write")
          && negb (String.eqb (contentBlock.Name block) "Edit") then files
  else
    match Unmarshal_toolInput lib (contentBlock.Input block) with
    | None => files
    | Some input =>
      if negb (String.eqb (toolInput.FilePath input) "")
      then <[toolInput.FilePath input := true]> files
      else files
    end.

Definition extractFileChanges (line : Line) (files : gmap string bool)
  : gmap string bool :=
  match Unmarshal_message lib line with
  | None => files
  | Some msg =>
    if negb (String.eqb (messageContent.Role msg) "assistant") then files
    else
      match Unmarshal_blocks lib (messageContent.Content msg) with
      | None => files
      | Some blocks => foldl blockStep files blocks
      end
  end.

(** ** transcript.go: parseTranscript *)

(** The variables of [parseTranscript] that the scan loop updates. *)
Record scanState := {
  sessionID : string;
  workingDir : string;
  filesChanged : gmap string bool;
  firstTS : Time;
  lastTS : Time;
  hasAssistantMsg : bool
}.

Definition scanInit : scanState :=
  {| sessionID := ""; workingDir := ""; filesChanged := ∅;
     firstTS := 0%Z; lastTS := 0%Z; hasAssistantMsg := false |}.

(** One iteration of [for scanner.Scan()]. *)
Definition scanLine (st : scanState) (line : Line) : scanState :=
  if lineEmpty lib line then st
  else
    match Unmarshal_jsonlLine lib line with
    | None => st
    | Some entry =>
      let sessionID' :=
        if negb (String.eqb (jsonlLine.SessionID entry) "")
           && String.eqb (sessionID st) ""
        then jsonlLine.SessionID entry else sessionID st in
      let workingDir' :=
        if negb (String.eqb (jsonlLine.CWD entry) "")
           && String.eqb (workingDir st) ""
        then jsonlLine.CWD entry else workingDir st in
      let '(firstTS', lastTS') :=
        if negb (String.eqb (jsonlLine.Timestamp entry) "") then
          match time_Parse lib (jsonlLine.Timestamp entry) with
          | Some ts => (if IsZero (firstTS st) then ts else firstTS st, ts)
          | None => (firstTS st, lastTS st)
          end
        else (firstTS st, lastTS st) in
      let hasAssistantMsg' :=
        if String.eqb (jsonlLine.Type_ entry) "assistant"
        then true else hasAssistantMsg st in
      {| sessionID := sessionID'; workingDir := workingDir';
         filesChanged := extractFileChanges line (filesChanged st);
         firstTS := firstTS'; lastTS := lastTS';
         hasAssistantMsg := hasAssistantMsg' |}
    end.

Definition scan (f : File Line) : scanState := foldl scanLine scanInit (lines f).

(** [parseTranscript]; [None] is the nil result. The order [ro] is the one
    of [for f := range filesChanged]. A scan error is logged and changes
    nothing else. *)
Definition parseTranscript (ro : RangeOrder) (fs : FS Line) (path : string)
  : option CompletedSession :=
  match fs path with
  | None => None
  | Some f =>
    let st := scan f in
    let sessionID :=
      if String.eqb (sessionID st) "" then extractSessionIDFromPath path
      else sessionID st in
    if String.eqb sessionID "" then None
    else
      let files := range_keys ro (filesChanged st) in
      let durationMs :=
        if negb (IsZero (firstTS st)) && negb (IsZero (lastTS st))
        then Milliseconds (Sub (lastTS st) (firstTS st)) else 0%Z in
      let exitCode := if negb (hasAssistantMsg st) then 1%Z else 0%Z in
      Some {| SessionID := sessionID;
              TranscriptPath := path;
              FilesChanged := files;
              WorkingDir := workingDir st;
              DurationMs := durationMs;
              ExitCode := exitCode |}
  end.
End Parser.

(** ** tracker.go: data *)

(** trackedFile tracks a transcript file being written to. *)
Record trackedFile := {
  path : string;
  lastWrite : Time;
  reported : bool;
  reportedAt : Time
}.

(** cleanupGrace is how long a reported file stays in the map before
    eviction. *)
Definition cleanupGrace : Duration := (5 * Minute)%Z.

(** The channel [done]: nothing is ever sent on it, it is only closed. *)
Inductive chan := ChanOpen | ChanClosed.

(** Tracker; the mutex, the logger and the two function fields are not
    state: [onComplete] is modelled by the list of sessions it is called
    with, [processCheck] by the answers it gives during one sweep. *)
Record Tracker := {
  files : gmap string trackedFile;
  idleThreshold : Duration;
  pollInterval : Duration;
  done : chan
}.

Definition NewTracker (idleThreshold pollInterval : Duration) : Tracker :=
  {| files := ∅; idleThreshold := idleThreshold;
     pollInterval := pollInterval; done := ChanOpen |}.

Definition setFiles (t : Tracker) (fs : gmap string trackedFile) : Tracker :=
  {| files := fs; idleThreshold := idleThreshold t;
     pollInterval := pollInterval t; done := done t |}.

(** ** tracker.go: Touch *)

(** [Touch]; [now] is the value of [time.Now()]. *)
Definition Touch (now : Time) (p : string) (t : Tracker) : Tracker :=
  match files t !! p with
  | Some tf =>
    setFiles t (<[p := {| path := path tf; lastWrite := now;
                          reported := false;
                          reportedAt := reportedAt tf |}]> (files t))
  | None =>
    setFiles t (<[p := {| path := p; lastWrite := now;
                          reported := false; reportedAt := 0%Z |}]> (files t))
  end.

(** ** tracker.go: check *)

(** What one call of [check] reads from outside the tracker. *)
Record Sweep (Line : Type) := {
  (** [time.Now()], read once under the lock *)
  now : Time;
  (** the answers of [t.processCheck] during this sweep *)
  processCheck : string → bool;
  (** the order of [for path, tf := range t.files] *)
  filesOrder : RangeOrder;
  (** the file system when the queued paths are parsed *)
  disk : FS Line;
  (** the map order inside the [parseTranscript] call for each path *)
  parseOrder : string → RangeOrder
}.
Arguments now {Line}.
Arguments processCheck {Line}.
Arguments filesOrder {Line}.
Arguments disk {Line}.
Arguments parseOrder {Line}.

(** One iteration of the loop over [t.files]: the map and [readyPaths]
    before and after the entry [(p, tf)] is visited. *)
Definition checkEntry (now : Time) (idleThreshold : Duration)
    (processCheck : string → bool)
    (acc : gmap string trackedFile * list string) (entry : string * trackedFile)
  : gmap string trackedFile * list string :=
  let '(fs, readyPaths) := acc in
  let '(p, tf) := entry in
  if reported tf && negb (IsZero (reportedAt tf))
     && (cleanupGrace <=? Sub now (reportedAt tf))%Z
  then (delete p fs, readyPaths)
  else if reported tf then (fs, readyPaths)
  else if (Sub now (lastWrite tf) <? idleThreshold)%Z then (fs, readyPaths)
  else if processCheck p then (fs, readyPaths)
  else (<[p := {| path := path tf; lastWrite := lastWrite tf;
                  reported := true; reportedAt := now |}]> fs,
        readyPaths ++ [p]).

Section Tracker.
Context {Line Raw : Type} (lib : Lib Line Raw).

(** The part of [check] that runs under the lock: the tracker afterwards
    and [readyPaths]. The loop visits the entries the map holds when it
    starts; an iteration writes or deletes only the key it visits, so that
    no entry changes before its own turn. *)
Definition checkLocked (w : Sweep Line) (t : Tracker) : Tracker * list string :=
  let '(fs, readyPaths) :=
    foldl (checkEntry (now w) (idleThreshold t) (processCheck w))
          (files t, []) (range_of (filesOrder w) _ (files t)) in
  (setFiles t fs, readyPaths).

(** The paths one sweep marks reported and queues for parsing: the
    completions of the sweep. *)
Definition readyPaths (w : Sweep Line) (t : Tracker) : list string :=
  (checkLocked w t).2.

(** The part of [check] that runs after the lock is released: the
    sessions [t.onComplete] is called with, in order. *)
Definition callbacks (w : Sweep Line) (ready : list string)
  : list CompletedSession :=
  omap (λ p, parseTranscript lib (parseOrder w p) (disk w) p) ready.

(** [check]: the tracker afterwards and the calls of [t.onComplete]. *)
Definition check (w : Sweep Line) (t : Tracker)
  : Tracker * list CompletedSession :=
  let '(t', ready) := checkLocked w t in
  (t', callbacks w ready).

(** ** tracker.go: Start and Stop *)

Inductive result (A : Type) := Ok (a : A) | Panic.
Arguments Ok {A}.
Arguments Panic {A}.

(** [Stop]: [close(t.done)], which panics on a closed channel. *)
Definition Stop (t : Tracker) : result Tracker :=
  match done t with
  | ChanOpen =>
    Ok {| files := files t; idleThreshold := idleThreshold t;
          pollInterval := pollInterval t; done := ChanClosed |}
  | ChanClosed => Panic
  end.

(** The case the [select] of [Start] takes. *)
Inductive selectCase :=
| CaseTick (w : Sweep Line)   (* <-ticker.C *)
| CaseDone.                   (* <-t.done *)

(** A receive from [t.done] can proceed only once the channel is closed;
    a tick is ready when the ticker has delivered one. *)
Definition caseReady (t : Tracker) (c : selectCase) : bool :=
  match c with
  | CaseTick _ => true
  | CaseDone => match done t with ChanClosed => true | ChanOpen => false end
  end.

(** The goroutine that runs [Start]. *)
Inductive loopState :=
| Blocked (t : Tracker)     (* waiting in [select] *)
| Returned (t : Tracker).   (* [Start] has returned *)

(** One iteration of the loop of [Start] when [select] takes case [c],
    with the calls of [t.onComplete] it makes. A case that is not ready
    cannot be taken: the goroutine stays blocked. *)
Definition startIter (t : Tracker) (c : selectCase)
  : loopState * list CompletedSession :=
  if caseReady t c then
    match c with
    | CaseTick w => let '(t', cbs) := check w t in (Blocked t', cbs)
    | CaseDone => (Returned t, [])
    end
  else (Blocked t, []).

(** ** executions *)

(** The calls that reach one tracker, in the order the mutex serialises
    them. *)
Inductive event :=
| EvTouch (now : Time) (p : string)
| EvSweep (w : Sweep Line).

Definition step (t : Tracker) (e : event) : Tracker :=
  match e with
  | EvTouch now p => Touch now p t
  | EvSweep w => (checkLocked w t).1
  end.

Definition run (t : Tracker) (evs : list event) : Tracker := foldl step t evs.

(** The completions of an execution, sweep after sweep. *)
Fixpoint emitted (t : Tracker) (evs : list event) : list string :=
  match evs with
  | [] => []
  | e :: evs' =>
    match e with
    | EvTouch _ _ => []
    | EvSweep w => readyPaths w t
    end ++ emitted (step t e) evs'
  end.

(** The sessions handed to [t.onComplete] during an execution. *)
Fixpoint delivered (t : Tracker) (evs : list event) : list CompletedSession :=
  match evs with
  | [] => []
  | e :: evs' =>
    match e with
    | EvTouch _ _ => []
    | EvSweep w => (check w t).2
    end ++ delivered (step t e) evs'
  end.

(** No [Touch] of [p] among the events. *)
Definition noTouch (p : string) (evs : list event) : Prop :=
  ∀ now, EvTouch now p ∉ evs.

(** The two conditions of a completion at one sweep, for an entry last
    written at [lw]. *)
Definition idleAndDead (t : Tracker) (p : string) (lw : Time) (w : Sweep Line)
  : Prop :=
  (idleThreshold t ≤ Sub (now w) lw)%Z ∧ processCheck w p = false.
End Tracker.
Arguments Ok {A}.
Arguments Panic {A}.
Arguments CaseDone {Line}.
Arguments event : clear implicits.
Arguments selectCase : clear implicits.

(** ** encoding/json on parsed values *)

(** A JSON text after parsing. Object members are kept in source order,
    duplicates included. *)
Inductive json :=
| JNull
| JBool (b : bool)
| JNumber (literal : string)
| JString (s : string)
| JArray (elems : list json)
| JObject (members : list (string * json)).

(** A token of the line scanner. *)
Inductive jline :=
| LineEmpty                (* no bytes *)
| LineInvalid              (* bytes that are not a JSON text *)
| LineJSON (v : json).

(** [json.RawMessage]: [None] is the empty message of a field that was
    never set, [Some v] the text of the value [v]. *)
Definition raw := option json.

Module GoJSON.
Definition lowerAscii (c : ascii) : ascii :=
  if between 65 (byte_of c) 90
  then ascii_of_N (N_of_ascii c + 32) else c.

Fixpoint lower (s : string) : string :=
  match s with
  | EmptyString => EmptyString
  | String c s' => String (lowerAscii c) (lower s')
  end.

(** An object key names a struct field when it equals the field's tag,
    letter case ignored (bytes outside ASCII are compared as they are). *)
Definition keyIs (tag key : string) : bool :=
  String.eqb (lower key) (lower tag).

(** Storing a value into a field of type [string]: null leaves the field
    as it is, anything but a string is a type error. *)
Definition storeString (cur : string) (v : json) : option string :=
  match v with
  | JNull => Some cur
  | JString s => Some s
  | _ => None
  end.

(** Decoding an object member by member into a struct value [A], where
    [field] stores one member (its result is [None] on a type error;
    members that name no field are ignored). A type error does not stop
    the decoding but makes [json.Unmarshal] return an error. *)
Definition decodeObject {A} (field : A → string → json → option A)
    (zero : A) (v : json) : option A :=
  match v with
  | JNull => Some zero
  | JObject members =>
    foldl (λ acc kv, acc ≫= λ a, field a kv.1 kv.2) (Some zero) members
  | _ => None
  end.

Definition jsonlLine_zero : jsonlLine.t raw := jsonlLine.Build "" "" "" None "".

Definition jsonlLine_field (e : jsonlLine.t raw) (k : string) (v : json)
  : option (jsonlLine.t raw) :=
  let '(jsonlLine.Build ty sid ts msg cwd) := e in
  if keyIs "type" k then
    (λ s, jsonlLine.Build s sid ts msg cwd) <$> storeString ty v
  else if keyIs "sessionId" k then
    (λ s, jsonlLine.Build ty s ts msg cwd) <$> storeString sid v
  else if keyIs "timestamp" k then
    (λ s, jsonlLine.Build ty sid s msg cwd) <$> storeString ts v
  else if keyIs "message" k then
    Some (jsonlLine.Build ty sid ts (Some v) cwd)
  else if keyIs "cwd" k then
    (λ s, jsonlLine.Build ty sid ts msg s) <$> storeString cwd v
  else Some e.

Definition messageContent_zero : messageContent.t raw :=
  messageContent.Build "" None.

Definition messageContent_field (m : messageContent.t raw) (k : string)
    (v : json) : option (messageContent.t raw) :=
  let '(messageContent.Build role content) := m in
  if keyIs "role" k then
    (λ s, messageContent.Build s content) <$> storeString role v
  else if keyIs "content" k then
    Some (messageContent.Build role (Some v))
  else Some m.

(** The anonymous struct of [extractFileChanges], reduced to its only
    field [Message]. *)
Definition message_field (m : messageContent.t raw) (k : string) (v : json)
  : option (messageContent.t raw) :=
  if keyIs "message" k then decodeObject messageContent_field m v
  else Some m.

Definition contentBlock_zero : contentBlock.t raw :=
  contentBlock.Build "" "" None.

Definition contentBlock_field (b : contentBlock.t raw) (k : string)
    (v : json) : option (contentBlock.t raw) :=
  let '(contentBlock.Build ty name input) := b in
  if keyIs "type" k then
    (λ s, contentBlock.Build s name input) <$> storeString ty v
  else if keyIs "name" k then
    (λ s, contentBlock.Build ty s input) <$> storeString name v
  else if keyIs "input" k then
    Some (contentBlock.Build ty name (Some v))
  else Some b.

Definition toolInput_field (i : toolInput.t) (k : string) (v : json)
  : option toolInput.t :=
  if keyIs "file_path" k then
    toolInput.Build <$> storeString (toolInput.FilePath i) v
  else Some i.

Definition ofLine {A} (dec : json → option A) (l : jline) : option A :=
  match l with
  | LineJSON v => dec v
  | _ => None
  end.

(** Decoding a raw message: the empty message is not a JSON text. *)
Definition ofRaw {A} (dec : json → option A) (r : raw) : option A :=
  r ≫= dec.

Definition decodeBlocks (v : json) : option (list (contentBlock.t raw)) :=
  match v with
  | JNull => Some []
  | JArray elems =>
    mapM (decodeObject contentBlock_field contentBlock_zero) elems
  | _ => None
  end.

(** ** time.Parse on UTC timestamps *)

Definition digit (c : ascii) : option Z :=
  if between 48 (byte_of c) 57 then Some (byte_of c - 48)%Z else None.

Fixpoint number (acc : Z) (l : list ascii) : option Z :=
  match l with
  | [] => Some acc
  | c :: l' => digit c ≫= λ d, number (acc * 10 + d)%Z l'
  end.

Definition isLeap (y : Z) : bool :=
  ((y mod 4 =? 0) && (negb (y mod 100 =? 0) || (y mod 400 =? 0)))%Z.

Definition daysIn (y m : Z) : Z :=
  if (m =? 2)%Z then (if isLeap y then 29 else 28)%Z
  else if ((m =? 4) || (m =? 6) || (m =? 9) || (m =? 11))%Z then 30%Z
  else 31%Z.

(** Days from 0001-01-01 to the first day of year [y]. *)
Definition daysBeforeYear (y : Z) : Z :=
  let y' := (y - 1)%Z in (365 * y' + y' / 4 - y' / 100 + y' / 400)%Z.

Fixpoint daysBeforeMonth (y : Z) (m : nat) : Z :=
  match m with
  | O => 0%Z
  | S m' => (daysBeforeMonth y m' + daysIn y (Z.of_nat m))%Z
  end.

(** The instant [time.Parse(time.RFC3339Nano, s)] returns for a timestamp
    written [YYYY-MM-DDTHH:MM:SSZ]. Timestamps with a fraction or a
    numeric offset are outside this table and are reported as errors. *)
Definition parseUTC (s : string) : option Time :=
  match list_ascii_of_string s with
  | [y1; y2; y3; y4; d1; m1; m2; d2; a1; a2; t; h1; h2; c1; n1; n2; c2;
     s1; s2; z] =>
    if Ascii.eqb d1 "-" && Ascii.eqb d2 "-" && Ascii.eqb t "T"
       && Ascii.eqb c1 ":" && Ascii.eqb c2 ":" && Ascii.eqb z "Z" then
      y ← number 0 [y1; y2; y3; y4];
      m ← number 0 [m1; m2];
      d ← number 0 [a1; a2];
      h ← number 0 [h1; h2];
      n ← number 0 [n1; n2];
      sec ← number 0 [s1; s2];
      if (between 1 m 12 && between 1 d (daysIn y m) && (h <? 24)
          && (n <? 60) && (sec <? 60))%Z
      then
        let days :=
          (daysBeforeYear y + daysBeforeMonth y (Z.to_nat m - 1) + (d - 1))%Z in
        Some ((((days * 24 + h) * 60 + n) * 60 + sec) * 1000000000)%Z
      else None
    else None
  | _ => None
  end.

Definition lib : Lib jline raw := {|
  lineEmpty := λ l, match l with LineEmpty => true | _ => false end;
  Unmarshal_jsonlLine := ofLine (decodeObject jsonlLine_field jsonlLine_zero);
  Unmarshal_message :=
    ofLine (decodeObject message_field messageContent_zero);
  Unmarshal_blocks := ofRaw decodeBlocks;
  Unmarshal_toolInput :=
    ofRaw (decodeObject toolInput_field (toolInput.Build ""));
  time_Parse := parseUTC
|}.

(** The order [map_to_list] gives, and its reverse. *)
Definition ascending : RangeOrder :=
  {| range_of := λ A m, map_to_list m;
     range_perm := λ A m, reflexivity (map_to_list m) |}.

Definition descending : RangeOrder :=
  {| range_of := λ A m, reverse (map_to_list m);
     range_perm := λ A m, reverse_Permutation (map_to_list m) |}.
End GoJSON.

Example parseUTC_2026 :
  GoJSON.parseUTC "2026-02-14T10:00:00Z"
    = Some ((739660 * 86400 + 36000) * 1000000000)%Z ∧
  GoJSON.parseUTC "2026-02-14T10:06:00Z"
    = Some ((739660 * 86400 + 36000) * 1000000000 + 6 * Minute)%Z ∧
  GoJSON.parseUTC "1970-01-01T00:00:00Z" = Some (719162 * 86400 * 1000000000)%Z ∧
  GoJSON.parseUTC "0001-01-01T00:00:00Z" = Some 0%Z ∧
  GoJSON.parseUTC "2026-02-30T10:00:00Z" = None.
Proof. repeat split; reflexivity. Qed.

(** * Properties *)

(** ** Runes and the shape of a session id *)

Definition isHexDigit (c : ascii) : bool := isHexRune (byte_of c).

(** The canonical 8-4-4-4-12 grouping, byte by byte: 36 bytes, a hyphen at
    each of the positions 8, 13, 18 and 23, a hexadecimal digit of either
    case everywhere else. *)
Definition uuidShape (s : string) : Prop :=
  String.length s = 36 ∧
  ∀ i c, String.get i s = Some c →
    if isHyphenPos i then c = "-"%char else isHexDigit c = true.

Lemma byte_of_range c : (0 ≤ byte_of c < 256)%Z.
Proof. destruct c as [[] [] [] [] [] [] [] []]; vm_compute; intuition congruence. Qed.

Lemma byte_of_hyphen c : (byte_of c =? 45)%Z = true ↔ c = "-"%char.
Proof.
  split.
  - destruct c as [[] [] [] [] [] [] [] []]; vm_compute; congruence.
  - intros ->. reflexivity.
Qed.

Lemma between_spec lo x hi : between lo x hi = true ↔ (lo ≤ x ≤ hi)%Z.
Proof. unfold between. rewrite andb_true_iff, !Z.leb_le. tauto. Qed.

Lemma uuidRuneOk_ascii i r : uuidRuneOk i r = true → (r < 128)%Z.
Proof.
  unfold uuidRuneOk, isHexRune. destruct (isHyphenPos i).
  - intros ?%Z.eqb_eq. lia.
  - rewrite !orb_true_iff, !between_spec. lia.
Qed.

Lemma decodeRune_ascii c rest :
  (byte_of c < 128)%Z → decodeRune (String c rest) = (byte_of c, 1%nat).
Proof. intros H. cbn. apply Z.ltb_lt in H. by rewrite H. Qed.

(** A byte outside ASCII never starts a rune below 128. *)
Lemma decodeRune_high c rest :
  (128 ≤ byte_of c)%Z → (128 ≤ (decodeRune (String c rest)).1)%Z.
Proof.
  intros H. pose proof (byte_of_range c) as Hc.
  assert (HE : (128 ≤ RuneError)%Z) by (unfold RuneError; lia).
  unfold decodeRune. destruct (Z.ltb_spec (byte_of c) 128); [lia|].
  destruct (between 194 (byte_of c) 223) eqn:E2.
  { apply between_spec in E2. destruct rest as [|c1 ?]; [done|].
    unfold isCont. destruct (_ && _) eqn:E; [|done].
    apply andb_true_iff in E as [?%Z.leb_le ?%Z.leb_le]. cbn. lia. }
  destruct (between 224 (byte_of c) 239) eqn:E3.
  { apply between_spec in E3. destruct rest as [|c1 [|c2 ?]]; [done..|].
    destruct (_ && _) eqn:E; [|done].
    apply andb_true_iff in E as [E1 E]. apply between_spec in E1.
    unfold isCont in E. apply andb_true_iff in E as [?%Z.leb_le ?%Z.leb_le].
    cbn. destruct (Z.eqb_spec (byte_of c) 224); lia. }
  destruct (between 240 (byte_of c) 244) eqn:E4; [|done].
  apply between_spec in E4.
  destruct rest as [|c1 [|c2 [|c3 ?]]]; [done..|].
  destruct (_ && _) eqn:E; [|done].
  apply andb_true_iff in E as [E E'].
  apply andb_true_iff in E as [E1 E]. apply between_spec in E1.
  unfold isCont in E, E'.
  apply andb_true_iff in E as [?%Z.leb_le ?%Z.leb_le].
  apply andb_true_iff in E' as [?%Z.leb_le ?%Z.leb_le].
  cbn. destruct (Z.eqb_spec (byte_of c) 240); lia.
Qed.

(** The loop of [isUUIDLike] over runes decides a property of bytes. *)
Fixpoint uuidBytes (i : nat) (s : string) : bool :=
  match s with
  | EmptyString => true
  | String c rest => uuidRuneOk i (byte_of c) && uuidBytes (S i) rest
  end.

Lemma uuidRange_bytes s : ∀ i, uuidRange i 0 s = uuidBytes i s.
Proof.
  induction s as [|c rest IH]; intros i; [done|].
  cbn [uuidRange uuidBytes].
  destruct (Z.lt_ge_cases (byte_of c) 128) as [Hlo|Hhi].
  - rewrite (decodeRune_ascii _ _ Hlo). cbn. rewrite IH.
    by destruct (uuidRuneOk i (byte_of c)).
  - pose proof (decodeRune_high c rest Hhi) as Hr.
    destruct (decodeRune (String c rest)) as [r w]. cbn in Hr.
    destruct (uuidRuneOk i r) eqn:E1.
    { apply uuidRuneOk_ascii in E1. lia. }
    destruct (uuidRuneOk i (byte_of c)) eqn:E2; [|done].
    apply uuidRuneOk_ascii in E2. lia.
Qed.

Lemma uuidBytes_spec s : ∀ i,
  uuidBytes i s = true ↔
  ∀ j c, String.get j s = Some c →
    if isHyphenPos (i + j) then c = "-"%char else isHexDigit c = true.
Proof.
  induction s as [|c rest IH]; intros i; cbn [uuidBytes].
  { split; [|done]. intros _ j c. by destruct j. }
  rewrite andb_true_iff, IH. split.
  - intros [H0 Hr] j c'. destruct j as [|j]; cbn.
    + intros [= <-]. rewrite Nat.add_0_r. unfold uuidRuneOk in H0.
      destruct (isHyphenPos i); [by apply byte_of_hyphen|done].
    + intros Hj. specialize (Hr j c' Hj).
      by replace (i + S j)%nat with (S i + j)%nat by lia.
  - intros H. split.
    + specialize (H 0%nat c eq_refl). rewrite Nat.add_0_r in H.
      unfold uuidRuneOk. destruct (isHyphenPos i); [by apply byte_of_hyphen|done].
    + intros j c' Hj. specialize (H (S j) c' Hj).
      by replace (i + S j)%nat with (S i + j)%nat in H by lia.
Qed.

Lemma isUUIDLike_spec s : isUUIDLike s = true ↔ uuidShape s.
Proof.
  unfold isUUIDLike, uuidShape.
  destruct (Nat.eqb_spec (String.length s) 36) as [Hl|Hl]; cbn.
  - rewrite uuidRange_bytes, uuidBytes_spec. cbn.
    split; [by intros H; split|by intros [_ H]].
  - split; [done|by intros [? _]].
Qed.

(** The file name fallback, by cases on the test the code makes. *)
Lemma extractSessionIDFromPath_spec path :
  let name := TrimSuffix (Base path) ".jsonl" in
  let tail := sliceFrom (String.length name - 36) name in
  (36 ≤ String.length name ∧ uuidShape tail →
     extractSessionIDFromPath path = tail) ∧
  (¬ (36 ≤ String.length name ∧ uuidShape tail) →
     extractSessionIDFromPath path = name).
Proof.
  cbn. unfold extractSessionIDFromPath.
  destruct (Nat.leb_spec 36 (String.length (TrimSuffix (Base path) ".jsonl")))
    as [Hle|Hlt].
  - destruct (isUUIDLike _) eqn:E.
    + apply isUUIDLike_spec in E. naive_solver.
    + split; [|done]. intros [_ H%isUUIDLike_spec]. congruence.
  - split; [lia|done].
Qed.

(** ** What the scan loop accumulates *)

Fixpoint firstNonEmpty (l : list string) : string :=
  match l with
  | [] => ""
  | s :: l' => if String.eqb s "" then firstNonEmpty l' else s
  end.

Fixpoint firstNonZero (l : list Time) : Time :=
  match l with
  | [] => 0%Z
  | t :: l' => if IsZero t then firstNonZero l' else t
  end.

Section ParserFacts.
Context {Line Raw : Type} (lib : Lib Line Raw).

(** The decoded entry of a line, for the lines the loop does not skip. *)
Definition entryOf (line : Line) : option (jsonlLine.t Raw) :=
  if lineEmpty lib line then None else Unmarshal_jsonlLine lib line.

Definition entriesOf (ls : list Line) : list (jsonlLine.t Raw) := omap entryOf ls.

(** The lines of a file that decode, in file order. *)
Definition entries (f : File Line) : list (jsonlLine.t Raw) := entriesOf (lines f).

(** The parsed timestamp of an entry, if it carries one that parses. *)
Definition timestampOf (e : jsonlLine.t Raw) : option Time :=
  if String.eqb (jsonlLine.Timestamp e) "" then None
  else time_Parse lib (jsonlLine.Timestamp e).

(** The parsed timestamps of a file, in file order. *)
Definition timestamps (f : File Line) : list Time := omap timestampOf (entries f).

(** A line is tagged as an assistant message by its top-level [type]. *)
Definition taggedAssistant (e : jsonlLine.t Raw) : bool :=
  String.eqb (jsonlLine.Type_ e) "assistant".

(** A block of an assistant message records a change of file [p]. *)
Definition blockWrites (p : string) (b : contentBlock.t Raw) : Prop :=
  contentBlock.Type_ b = "tool_use" ∧
  (contentBlock.Name b = "Write" ∨ contentBlock.Name b = "Edit") ∧
  ∃ input, Unmarshal_toolInput lib (contentBlock.Input b) = Some input ∧
           toolInput.FilePath input = p ∧ p ≠ "".

(** A line contributes the file [p] to [filesChanged]. *)
Definition lineWrites (p : string) (line : Line) : Prop :=
  is_Some (entryOf line) ∧
  ∃ msg blocks,
    Unmarshal_message lib line = Some msg ∧
    messageContent.Role msg = "assistant" ∧
    Unmarshal_blocks lib (messageContent.Content msg) = Some blocks ∧
    ∃ b, b ∈ blocks ∧ blockWrites p b.

Lemma scanLine_skip st line : entryOf line = None → scanLine lib st line = st.
Proof.
  unfold entryOf, scanLine. destruct (lineEmpty lib line); [done|].
  by intros ->.
Qed.

Lemma scanLine_entry st line e :
  entryOf line = Some e →
  sessionID (scanLine lib st line) =
    (if negb (String.eqb (jsonlLine.SessionID e) "")
        && String.eqb (sessionID st) ""
     then jsonlLine.SessionID e else sessionID st) ∧
  filesChanged (scanLine lib st line) =
    extractFileChanges lib line (filesChanged st) ∧
  firstTS (scanLine lib st line) =
    match timestampOf e with
    | Some ts => if IsZero (firstTS st) then ts else firstTS st
    | None => firstTS st
    end ∧
  lastTS (scanLine lib st line) = default (lastTS st) (timestampOf e) ∧
  hasAssistantMsg (scanLine lib st line) =
    taggedAssistant e || hasAssistantMsg st.
Proof.
  unfold entryOf, scanLine, timestampOf, taggedAssistant.
  destruct (lineEmpty lib line); [done|]. intros ->.
  destruct (String.eqb (jsonlLine.Timestamp e) ""); cbn.
  - by destruct (String.eqb (jsonlLine.Type_ e) "assistant").
  - destruct (time_Parse lib (jsonlLine.Timestamp e)); cbn;
      by destruct (String.eqb (jsonlLine.Type_ e) "assistant").
Qed.

Lemma scan_sessionID ls : ∀ st,
  sessionID (foldl (scanLine lib) st ls) =
  if String.eqb (sessionID st) ""
  then firstNonEmpty (jsonlLine.SessionID <$> entriesOf ls)
  else sessionID st.
Proof.
  induction ls as [|line ls IH]; intros st; cbn [foldl].
  { cbn. by destruct (String.eqb_spec (sessionID st) ""). }
  rewrite IH. unfold entriesOf. cbn [omap list_omap].
  destruct (entryOf line) as [e|] eqn:E; [|by rewrite scanLine_skip].
  destruct (scanLine_entry st line e E) as (-> & _). cbn.
  destruct (String.eqb_spec (jsonlLine.SessionID e) "") as [He|He],
           (String.eqb_spec (sessionID st) "") as [Hs|Hs]; cbn;
    rewrite ?Hs; try done.
  - by destruct (String.eqb_spec (sessionID st) "").
  - by destruct (String.eqb_spec (jsonlLine.SessionID e) "").
  - by destruct (String.eqb_spec (sessionID st) "").
Qed.

Lemma scan_hasAssistantMsg ls : ∀ st,
  hasAssistantMsg (foldl (scanLine lib) st ls) =
  hasAssistantMsg st || existsb taggedAssistant (entriesOf ls).
Proof.
  induction ls as [|line ls IH]; intros st; cbn [foldl].
  { cbn. by rewrite orb_false_r. }
  rewrite IH. unfold entriesOf. cbn [omap list_omap].
  destruct (entryOf line) as [e|] eqn:E; [|by rewrite scanLine_skip].
  destruct (scanLine_entry st line e E) as (_ & _ & _ & _ & ->). cbn.
  by destruct (taggedAssistant e), (hasAssistantMsg st).
Qed.

Lemma scan_timestamps ls : ∀ st,
  firstTS (foldl (scanLine lib) st ls) =
    (if IsZero (firstTS st)
     then firstNonZero (omap timestampOf (entriesOf ls)) else firstTS st) ∧
  lastTS (foldl (scanLine lib) st ls) =
    default (lastTS st) (last (omap timestampOf (entriesOf ls))).
Proof.
  induction ls as [|line ls IH]; intros st; cbn [foldl].
  { cbn. by destruct (IsZero (firstTS st)) eqn:E; [apply Z.eqb_eq in E|]. }
  destruct (IH (scanLine lib st line)) as [-> ->].
  unfold entriesOf. cbn [omap list_omap].
  destruct (entryOf line) as [e|] eqn:E; [|by rewrite scanLine_skip].
  destruct (scanLine_entry st line e E) as (_ & _ & -> & -> & _).
  cbn [omap list_omap].
  destruct (timestampOf e) as [t1|]; cbn; [|done].
  split.
  - destruct (IsZero (firstTS st)) eqn:E0; [done|]. by rewrite E0.
  - rewrite last_cons. by destruct (last _).
Qed.

Lemma blockStep_lookup p files b :
  is_Some (blockStep lib files b !! p) ↔ is_Some (files !! p) ∨ blockWrites p b.
Proof.
  unfold blockStep, blockWrites.
  destruct (String.eqb_spec (contentBlock.Type_ b) "tool_use") as [->|]; cbn;
    [|naive_solver].
  destruct (String.eqb_spec (contentBlock.Name b) "Write") as [Hw|Hw],
           (String.eqb_spec (contentBlock.Name b) "Edit") as [He|He]; cbn;
    try (rewrite Hw in He; discriminate);
    try (destruct (Unmarshal_toolInput lib (contentBlock.Input b)) as [input|];
         [|naive_solver];
         destruct (String.eqb_spec (toolInput.FilePath input) "") as [Hf|Hf]; cbn;
         [naive_solver|];
         rewrite lookup_insert_is_Some; destruct (decide (toolInput.FilePath input = p));
         naive_solver).
  naive_solver.
Qed.

Lemma blocks_lookup p blocks : ∀ files,
  is_Some (foldl (blockStep lib) files blocks !! p) ↔
  is_Some (files !! p) ∨ ∃ b, b ∈ blocks ∧ blockWrites p b.
Proof.
  induction blocks as [|b blocks IH]; intros files; cbn [foldl].
  { split; [by left|]. intros [?|(b & Hb & _)]; [done|]. by apply elem_of_nil in Hb. }
  rewrite IH, blockStep_lookup. split.
  - intros [[?|?]|(b' & ? & ?)]; [by left|right..].
    + exists b. split; [left|done].
    + exists b'. split; [by right|done].
  - intros [?|(b' & [->|?]%elem_of_cons & ?)].
    + by left; left.
    + by left; right.
    + right. by exists b'.
Qed.

Lemma extractFileChanges_lookup p line files :
  is_Some (extractFileChanges lib line files !! p) ↔
  is_Some (files !! p) ∨
  ∃ msg blocks,
    Unmarshal_message lib line = Some msg ∧
    messageContent.Role msg = "assistant" ∧
    Unmarshal_blocks lib (messageContent.Content msg) = Some blocks ∧
    ∃ b, b ∈ blocks ∧ blockWrites p b.
Proof.
  unfold extractFileChanges.
  destruct (Unmarshal_message lib line) as [msg|] eqn:Em.
  2: { split; [by left|]. by intros [?|(? & ? & [=] & _)]. }
  destruct (String.eqb_spec (messageContent.Role msg) "assistant") as [Hr|Hr];
    cbn.
  2: { split; [by left|]. intros [?|(? & ? & [= <-] & ? & _)]; done. }
  destruct (Unmarshal_blocks lib (messageContent.Content msg)) as [blocks|] eqn:Eb.
  2: { split; [by left|]. intros [?|(? & ? & [= <-] & _ & Hb & _)]; [done|].
       rewrite Eb in Hb. done. }
  rewrite blocks_lookup. split.
  - intros [?|?]; [by left|]. right. by exists msg, blocks.
  - intros [?|(? & ? & [= <-] & _ & Hb & ?)]; [by left|].
    rewrite Eb in Hb. injection Hb as <-. by right.
Qed.

Lemma scan_filesChanged p ls : ∀ st,
  is_Some (filesChanged (foldl (scanLine lib) st ls) !! p) ↔
  is_Some (filesChanged st !! p) ∨ ∃ line, line ∈ ls ∧ lineWrites p line.
Proof.
  induction ls as [|line ls IH]; intros st; cbn [foldl].
  { split; [by left|]. intros [?|(l & Hl & _)]; [done|]. by apply elem_of_nil in Hl. }
  rewrite IH.
  assert (is_Some (filesChanged (scanLine lib st line) !! p) ↔
          is_Some (filesChanged st !! p) ∨ lineWrites p line) as ->.
  { unfold lineWrites. destruct (entryOf line) as [e|] eqn:E.
    - destruct (scanLine_entry st line e E) as (_ & -> & _).
      rewrite extractFileChanges_lookup. naive_solver.
    - rewrite scanLine_skip by done. split; [by left|].
      intros [?|[[? [=]] _]]. done. }
  split.
  - intros [[?|?]|(l & ? & ?)]; [by left|right..].
    + exists line. split; [left|done].
    + exists l. split; [by right|done].
  - intros [?|(l & [->|?]%elem_of_cons & ?)].
    + by left; left.
    + by left; right.
    + right. by exists l.
Qed.

(** The result of [parseTranscript] on a file that opens, field by field. *)
Lemma parseTranscript_open ro (fs : FS Line) path f :
  fs path = Some f →
  let sid := firstNonEmpty (jsonlLine.SessionID <$> entries f) in
  let sid' := if String.eqb sid "" then extractSessionIDFromPath path else sid in
  parseTranscript lib ro fs path =
  if String.eqb sid' "" then None
  else Some {|
    SessionID := sid';
    TranscriptPath := path;
    FilesChanged := range_keys ro (filesChanged (scan lib f));
    WorkingDir := workingDir (scan lib f);
    DurationMs :=
      (let first := firstNonZero (timestamps f) in
       let last := default 0%Z (last (timestamps f)) in
       if negb (IsZero first) && negb (IsZero last)
       then Milliseconds (Sub last first) else 0%Z);
    ExitCode := if existsb taggedAssistant (entries f) then 0%Z else 1%Z |}.
Proof.
  intros Hf. cbn zeta. unfold parseTranscript. rewrite Hf.
  pose proof (scan_sessionID (lines f) scanInit) as Hs.
  pose proof (scan_timestamps (lines f) scanInit) as [Hft Hlt].
  pose proof (scan_hasAssistantMsg (lines f) scanInit) as Ha.
  fold (scan lib f) in Hs, Hft, Hlt, Ha. cbn in Hs, Hft, Hlt, Ha.
  fold (entries f) in Hs, Hft, Hlt, Ha. fold (timestamps f) in Hft, Hlt.
  rewrite Hs, Hft, Hlt, Ha.
  by destruct (existsb taggedAssistant (entries f)).
Qed.

Lemma firstNonEmpty_empty (l : list string) :
  firstNonEmpty l = "" ↔ ∀ s, s ∈ l → s = "".
Proof.
  induction l as [|s l IH]; cbn.
  { split; [|done]. intros _ s Hs. by apply elem_of_nil in Hs. }
  destruct (String.eqb_spec s "") as [->|Hs].
  - rewrite IH. split.
    + intros H s [->|?]%elem_of_cons; eauto.
    + intros H s ?. apply H. by right.
  - split; [done|]. intros H. apply H. left.
Qed.

Lemma range_keys_elem {A} ro (m : gmap string A) p :
  p ∈ range_keys ro m ↔ is_Some (m !! p).
Proof.
  unfold range_keys. rewrite (range_perm ro A m).
  rewrite list_elem_of_fmap. split.
  - intros ([k v] & -> & H%elem_of_map_to_list). by exists v.
  - intros [v H]. exists (p, v). split; [done|]. by apply elem_of_map_to_list.
Qed.

Lemma range_keys_NoDup {A} ro (m : gmap string A) : NoDup (range_keys ro m).
Proof.
  unfold range_keys. rewrite (range_perm ro A m). apply NoDup_fst_map_to_list.
Qed.

Lemma range_keys_perm {A} ro1 ro2 (m : gmap string A) :
  range_keys ro1 m ≡ₚ range_keys ro2 m.
Proof.
  unfold range_keys. by rewrite (range_perm ro1 A m), (range_perm ro2 A m).
Qed.
End ParserFacts.

(** ** Transcripts used as concrete inputs *)

Module Examples.
Definition str (k v : string) : string * json := (k, JString v).

(** An assistant message with one tool call on [file]. *)
Definition toolUse (ty tool file stamp : string) : jline :=
  LineJSON (JObject [
    str "type" ty;
    ("message", JObject [
       str "role" "assistant";
       ("content", JArray [
          JObject [str "type" "tool_use"; str "name" tool;
                   ("input", JObject [str "file_path" file])]])]);
    str "timestamp" stamp]).

Definition summary (sid cwd stamp : string) : jline :=
  LineJSON (JObject [str "type" "summary"; str "sessionId" sid;
                     str "cwd" cwd; str "timestamp" stamp]).

Definition userMessage (stamp : string) : jline :=
  LineJSON (JObject [
    str "type" "user";
    ("message", JObject [str "role" "user"; str "content" "hello"]);
    str "timestamp" stamp]).

Definition assistantText (stamp : string) : jline :=
  LineJSON (JObject [
    str "type" "assistant";
    ("message", JObject [
       str "role" "assistant";
       ("content", JArray [JObject [str "type" "text"; str "text" "Done!"]])]);
    str "timestamp" stamp]).

Definition file (ls : list jline) : File jline := {| lines := ls; scanErr := false |}.

(** A file system with one file. *)
Definition disk1 (p : string) (f : File jline) : FS jline :=
  λ q, if String.eqb q p then Some f else None.

(** The transcript of [TestParseTranscript_Basic], with the last line
    tagged as the assistant's. *)
Definition basic : File jline := file [
  summary "S1" "/work" "2026-02-14T10:00:00Z";
  toolUse "message" "Write" "/work/a.go" "2026-02-14T10:01:00Z";
  toolUse "message" "Edit" "/work/b.go" "2026-02-14T10:05:00Z";
  assistantText "2026-02-14T10:06:00Z"].

(** Two lines whose timestamps decrease. *)
Definition backwards : File jline := file [
  summary "S1" "/work" "2026-02-14T10:06:00Z";
  userMessage "2026-02-14T10:00:00Z"].

(** No [sessionId] anywhere, as in [TestParseTranscript_SessionIDFromFilename]. *)
Definition noID : File jline := file [userMessage "2026-02-14T10:00:00Z"].

(** An edit by a message whose top-level type is not "assistant". *)
Definition untagged : File jline := file [
  summary "S1" "/work" "2026-02-14T10:00:00Z";
  toolUse "message" "Write" "/work/a.go" "2026-02-14T10:01:00Z"].

Definition uuidPath : string := "/tmp/abcdef01-2345-6789-abcd-ef0123456789.jsonl".

(** Two timestamps further apart than a Duration can hold. *)
Definition farApart : File jline := file [
  summary "S1" "/work" "0001-01-01T00:00:01Z";
  userMessage "2026-02-14T10:00:00Z"].

(** A file name with a prefix before the id. *)
Definition agentPath : string :=
  "/home/mike/.claude/projects/-home-mike-Warren/agent-abcdef01-2345-6789-abcd-ef0123456789.jsonl".
End Examples.

Example parse_basic :
  parseTranscript GoJSON.lib GoJSON.ascending
    (Examples.disk1 "/t/s.jsonl" Examples.basic) "/t/s.jsonl"
  = Some {| SessionID := "S1"; TranscriptPath := "/t/s.jsonl";
            FilesChanged := ["/work/a.go"; "/work/b.go"];
            WorkingDir := "/work"; DurationMs := 360000; ExitCode := 0 |}.
Proof. vm_compute. reflexivity. Qed.

(** A file that cannot be opened gives no result; neither does an empty
    file named ".jsonl", whose stem is empty; an empty file named
    "empty.jsonl" gets the stem as its id, as [TestParseTranscript_EmptyFile]
    notes. *)
Example parse_absent :
  parseTranscript GoJSON.lib GoJSON.ascending
    (Examples.disk1 "/t/s.jsonl" Examples.basic) "/nonexistent/file.jsonl" = None ∧
  parseTranscript GoJSON.lib GoJSON.ascending
    (Examples.disk1 "/tmp/.jsonl" (Examples.file [])) "/tmp/.jsonl" = None ∧
  SessionID <$> parseTranscript GoJSON.lib GoJSON.ascending
    (Examples.disk1 "/tmp/empty.jsonl" (Examples.file [])) "/tmp/empty.jsonl"
  = Some "empty".
Proof. repeat split; vm_compute; reflexivity. Qed.

(** ** The duration *)

(** The duration in the words of the specification: the greatest parsed
    timestamp minus the least one, in milliseconds. *)
Definition specDurationMs (ts : list Time) : Z :=
  match ts with
  | [] => 0%Z
  | t :: ts' => Z.quot (foldr Z.max t ts' - foldr Z.min t ts') 1000000
  end.

(** Within the Duration range [Sub] is the plain difference. *)
Lemma Sub_exact t u :
  (minDuration ≤ t - u ≤ maxDuration)%Z → Sub t u = (t - u)%Z.
Proof. unfold Sub. lia. Qed.

Lemma Sub_self t : Sub t t = 0%Z.
Proof. unfold Sub, minDuration, maxDuration. rewrite Z.sub_diag. lia. Qed.

Lemma Sub_nonneg t u : (u ≤ t)%Z → (0 ≤ Sub t u)%Z.
Proof. unfold Sub, minDuration, maxDuration. lia. Qed.

Lemma Milliseconds_nonneg d : (0 ≤ d)%Z → (0 ≤ Milliseconds d)%Z.
Proof. intros H. unfold Milliseconds. apply Z.quot_pos; lia. Qed.

(** The milliseconds of a difference that is not negative: those of the
    plain difference, capped at the milliseconds of the largest Duration. *)
Lemma Milliseconds_Sub_capped t u :
  (u ≤ t)%Z →
  Milliseconds (Sub t u) = Z.min (Z.quot (t - u) 1000000) 9223372036854.
Proof.
  intros H. unfold Milliseconds, Sub, minDuration, maxDuration.
  assert (Hcap : Z.quot (2 ^ 63 - 1) 1000000 = 9223372036854%Z) by reflexivity.
  destruct (Z.le_gt_cases (t - u) (2 ^ 63 - 1)) as [Hle|Hgt].
  - replace (Z.max (- 2 ^ 63) (Z.min (2 ^ 63 - 1) (t - u))) with (t - u)%Z by lia.
    pose proof (Z.quot_le_mono (t - u) (2 ^ 63 - 1) 1000000 eq_refl Hle).
    lia.
  - replace (Z.max (- 2 ^ 63) (Z.min (2 ^ 63 - 1) (t - u)))
      with (2 ^ 63 - 1)%Z by lia.
    assert (Hle : (2 ^ 63 - 1 ≤ t - u)%Z) by lia.
    pose proof (Z.quot_le_mono (2 ^ 63 - 1) (t - u) 1000000 eq_refl Hle).
    lia.
Qed.

Lemma firstNonZero_hd t ts :
  Forall (λ t, t ≠ 0%Z) (t :: ts) → firstNonZero (t :: ts) = t.
Proof.
  intros [H _]%Forall_cons. cbn. unfold IsZero.
  by destruct (Z.eqb_spec t 0).
Qed.

Lemma sorted_bounds t ts :
  StronglySorted Z.le (t :: ts) →
  foldr Z.min t ts = t ∧ foldr Z.max t ts = default t (last ts).
Proof.
  revert t. induction ts as [|u ts IH]; intros t Hs; [done|].
  apply StronglySorted_inv in Hs as [Hs Ht].
  destruct (IH u Hs) as [Hmin Hmax].
  apply Forall_cons in Ht as [Htu Ht].
  assert (Hs' : StronglySorted Z.le (t :: ts)).
  { constructor; [by apply StronglySorted_inv in Hs as [? _]|done]. }
  destruct (IH t Hs') as [Hmin' Hmax'].
  cbn [foldr]. rewrite Hmin', Hmax', last_cons. split; [lia|].
  destruct (last ts) as [m|] eqn:El; cbn; [|lia].
  cbn in Hmax. rewrite <- Hmax.
  assert (u ≤ foldr Z.max u ts)%Z; [|lia].
  clear. induction ts; cbn; lia.
Qed.

(** C3 (amended): with no parsed timestamp the zero Time, the duration is
    the last parsed timestamp minus the first one in file order, that
    difference in nanoseconds saturated to the int64 range of a Duration
    (from -2^63 to 2^63-1) and then truncated toward zero to milliseconds;
    it is 0 when no timestamp parses. When any two parsed timestamps are
    less than 2^63 nanoseconds apart it is the plain difference of the last
    and the first in milliseconds, which is the greatest minus the least
    when the timestamps do not decrease through the file. When they do not
    decrease, it is the greatest minus the least in milliseconds capped at
    9223372036854, and not negative. When they are all equal it is 0. *)
Theorem durationMs_last_minus_first {Line Raw} (lib : Lib Line Raw)
    ro (fs : FS Line) path f r :
  fs path = Some f →
  parseTranscript lib ro fs path = Some r →
  Forall (λ t, t ≠ 0%Z) (timestamps lib f) →
  DurationMs r =
    match timestamps lib f with
    | [] => 0%Z
    | first :: rest =>
      Z.quot (Z.max (- 2 ^ 63)
                (Z.min (2 ^ 63 - 1) (default first (last rest) - first)))
             1000000
    end ∧
  ((∀ a b, a ∈ timestamps lib f → b ∈ timestamps lib f → (a - b < 2 ^ 63)%Z) →
     DurationMs r =
       match timestamps lib f with
       | [] => 0%Z
       | first :: rest => Z.quot (default first (last rest) - first) 1000000
       end ∧
     (StronglySorted Z.le (timestamps lib f) →
        DurationMs r = specDurationMs (timestamps lib f))) ∧
  (StronglySorted Z.le (timestamps lib f) →
     DurationMs r = Z.min (specDurationMs (timestamps lib f)) 9223372036854 ∧
     (0 ≤ DurationMs r)%Z) ∧
  ((∀ a b, a ∈ timestamps lib f → b ∈ timestamps lib f → a = b) →
     DurationMs r = 0%Z).
Proof.
  intros Hf Hr Hnz. rewrite (parseTranscript_open lib ro fs path f Hf) in Hr.
  cbn zeta in Hr. destruct (String.eqb _ ""); [done|]. injection Hr as <-.
  cbn [DurationMs].
  destruct (timestamps lib f) as [|first rest] eqn:Ets.
  { cbn. split; [done|]. split; [by intros _|]. split; [|done].
    intros _. by cbn. }
  rewrite (firstNonZero_hd _ _ Hnz), last_cons.
  assert (Hlast : default 0%Z (match last rest with
                               | Some y => Some y | None => Some first end)
                  = default first (last rest)) by by destruct (last rest).
  rewrite Hlast. clear Hlast.
  assert (Hin : default first (last rest) ∈ first :: rest).
  { destruct (last rest) as [m|] eqn:El; cbn; [|left].
    right. by apply last_Some_elem_of. }
  assert (Hl : default first (last rest) ≠ 0%Z).
  { rewrite Forall_forall in Hnz. by apply Hnz. }
  assert (Hf0 : first ≠ 0%Z) by by apply Forall_cons in Hnz as [? _].
  unfold IsZero.
  destruct (Z.eqb_spec first 0); [done|].
  destruct (Z.eqb_spec (default first (last rest)) 0); [done|]. cbn [negb andb].
  set (final := default first (last rest)) in *.
  split; [done|]. split; [|split].
  - intros Hrange.
    assert (Hsub : Sub final first = (final - first)%Z).
    { apply Sub_exact. unfold minDuration, maxDuration.
      pose proof (Hrange final first Hin ltac:(left)).
      pose proof (Hrange first final ltac:(left) Hin). lia. }
    rewrite Hsub. split; [done|].
    intros Hs. destruct (sorted_bounds first rest Hs) as [Hmin Hmax].
    unfold specDurationMs. by rewrite Hmin, Hmax.
  - intros Hs. destruct (sorted_bounds first rest Hs) as [Hmin Hmax].
    assert (Hle : (first ≤ final)%Z).
    { apply elem_of_cons in Hin as [E|Hin]; [lia|].
      apply StronglySorted_inv in Hs as [_ Hs]. rewrite Forall_forall in Hs.
      by apply Hs. }
    unfold specDurationMs. rewrite Hmin, Hmax. fold final.
    split; [by apply Milliseconds_Sub_capped|].
    by apply Milliseconds_nonneg, Sub_nonneg.
  - intros Heq. rewrite (Heq final first Hin ltac:(left)).
    by rewrite Sub_self.
Qed.

Lemma durationMs_last_minus_first_witness :
  ∃ r, parseTranscript GoJSON.lib GoJSON.ascending
         (Examples.disk1 "/t/s.jsonl" Examples.basic) "/t/s.jsonl" = Some r ∧
       DurationMs r = 360000%Z ∧
       specDurationMs (timestamps GoJSON.lib Examples.basic) = 360000%Z ∧
       DurationMs r = specDurationMs (timestamps GoJSON.lib Examples.basic).
Proof.
  eexists. split; [exact parse_basic|].
  destruct (durationMs_last_minus_first GoJSON.lib GoJSON.ascending
              (Examples.disk1 "/t/s.jsonl" Examples.basic) "/t/s.jsonl"
              Examples.basic _ eq_refl parse_basic) as (H1 & H2 & _).
  - vm_compute. repeat constructor; discriminate.
  - split; [exact H1|]. split; [reflexivity|].
    set (ts := timestamps GoJSON.lib Examples.basic) in *.
    vm_compute in ts. subst ts. apply H2.
    + intros a b Ha Hb. rewrite !elem_of_cons, elem_of_nil in Ha, Hb. lia.
    + repeat constructor; lia.
Defined.

(** C3 (as stated) fails: with timestamps that decrease through the file
    the duration is negative, and is not the greatest parsed timestamp
    minus the least one. *)
Lemma durationMs_negative :
  ∃ r, parseTranscript GoJSON.lib GoJSON.ascending
         (Examples.disk1 "/t/s.jsonl" Examples.backwards) "/t/s.jsonl" = Some r ∧
       DurationMs r = (-360000)%Z ∧
       specDurationMs (timestamps GoJSON.lib Examples.backwards) = 360000%Z.
Proof. eexists. repeat split; vm_compute; reflexivity. Qed.

(** The saturation shows on timestamps more than 2^63 nanoseconds apart:
    from the first second of year 1 to 2026 the duration is the cap, not
    the difference. *)
Example durationMs_saturates :
  ∃ r, parseTranscript GoJSON.lib GoJSON.ascending
         (Examples.disk1 "/t/s.jsonl" Examples.farApart) "/t/s.jsonl" = Some r ∧
       DurationMs r = 9223372036854%Z ∧
       specDurationMs (timestamps GoJSON.lib Examples.farApart)
       = 63906659999000%Z.
Proof. eexists. repeat split; vm_compute; reflexivity. Qed.

(** ** The session id and the absent result *)

Lemma entries_no_sessionID {Line Raw} (lib : Lib Line Raw) (f : File Line) :
  Forall (λ e, jsonlLine.SessionID e = "") (entries lib f) ↔
  firstNonEmpty (jsonlLine.SessionID <$> entries lib f) = "".
Proof.
  rewrite firstNonEmpty_empty, Forall_forall. split.
  - intros H s (e & -> & He)%list_elem_of_fmap. by apply H.
  - intros H e He. apply H. by apply list_elem_of_fmap_2.
Qed.

Lemma uuidShape_nonempty s : uuidShape s → s ≠ "".
Proof. intros [Hl _] ->. discriminate. Qed.

(** C7: the result is absent exactly when the file cannot be opened, or no
    line carries a non-empty [sessionId] and the file name yields the empty
    string; every result has a non-empty session id; and the result is
    built from the lines scanned, whether or not the scanner ended with an
    error. *)
Theorem parseTranscript_absent {Line Raw} (lib : Lib Line Raw)
    ro (fs : FS Line) path :
  (parseTranscript lib ro fs path = None ↔
     fs path = None ∨
     ∃ f, fs path = Some f ∧
          Forall (λ e, jsonlLine.SessionID e = "") (entries lib f) ∧
          extractSessionIDFromPath path = "") ∧
  (∀ r, parseTranscript lib ro fs path = Some r → SessionID r ≠ "") ∧
  (∀ f (fs' : FS Line) f',
     fs path = Some f → fs' path = Some f' → lines f' = lines f →
     parseTranscript lib ro fs' path = parseTranscript lib ro fs path).
Proof.
  split; [|split].
  - destruct (fs path) as [f|] eqn:Hf.
    2: { unfold parseTranscript. rewrite Hf. split; [by left|done]. }
    rewrite (parseTranscript_open lib ro fs path f Hf). cbn zeta.
    setoid_rewrite entries_no_sessionID.
    destruct (String.eqb_spec (firstNonEmpty (jsonlLine.SessionID <$> entries lib f)) "")
      as [E|E].
    + destruct (String.eqb_spec (extractSessionIDFromPath path) "") as [E'|E'].
      * split; [|done]. intros _. right. by exists f.
      * split; [done|]. intros [[=]|(f' & [= <-] & _ & ?)]. done.
    + destruct (String.eqb_spec (firstNonEmpty (jsonlLine.SessionID <$> entries lib f)) "");
        [done|].
      split; [done|]. intros [[=]|(f' & [= <-] & ? & _)]. done.
  - intros r. destruct (fs path) as [f|] eqn:Hf.
    2: { unfold parseTranscript. by rewrite Hf. }
    rewrite (parseTranscript_open lib ro fs path f Hf). cbn zeta.
    destruct (String.eqb_spec
                (if String.eqb (firstNonEmpty (jsonlLine.SessionID <$> entries lib f)) ""
                 then extractSessionIDFromPath path
                 else firstNonEmpty (jsonlLine.SessionID <$> entries lib f)) "")
      as [|Hne]; [done|].
    by intros [= <-].
  - intros f fs' f' Hf Hf' Hl. unfold parseTranscript, scan.
    by rewrite Hf, Hf', Hl.
Qed.

(** ** The exit code *)

Lemma existsb_taggedAssistant {Raw} (l : list (jsonlLine.t Raw)) :
  existsb taggedAssistant l = true ↔
  ∃ e, e ∈ l ∧ jsonlLine.Type_ e = "assistant".
Proof.
  rewrite existsb_exists. unfold taggedAssistant. split.
  - intros (e & He%list_elem_of_In & ?%String.eqb_eq). eauto.
  - intros (e & He%list_elem_of_In & ?%String.eqb_eq). eauto.
Qed.

Lemma exitCode_spec {Line Raw} (lib : Lib Line Raw) ro (fs : FS Line) path f r :
  fs path = Some f →
  parseTranscript lib ro fs path = Some r →
  ExitCode r = if existsb taggedAssistant (entries lib f) then 0%Z else 1%Z.
Proof.
  intros Hf Hr. rewrite (parseTranscript_open lib ro fs path f Hf) in Hr.
  cbn zeta in Hr. destruct (String.eqb _ ""); [done|]. by injection Hr as <-.
Qed.

(** C6: the exit code is 1 exactly when no line of the file is tagged as an
    assistant message, 0 exactly when some line is, and nothing else. *)
Theorem exitCode_assistant {Line Raw} (lib : Lib Line Raw)
    ro (fs : FS Line) path f r :
  fs path = Some f →
  parseTranscript lib ro fs path = Some r →
  (ExitCode r = 1%Z ↔
     ∀ e, e ∈ entries lib f → jsonlLine.Type_ e ≠ "assistant") ∧
  (ExitCode r = 0%Z ↔
     ∃ e, e ∈ entries lib f ∧ jsonlLine.Type_ e = "assistant") ∧
  (ExitCode r = 0%Z ∨ ExitCode r = 1%Z).
Proof.
  intros Hf Hr. rewrite (exitCode_spec lib ro fs path f r Hf Hr).
  pose proof (existsb_taggedAssistant (entries lib f)) as Hex.
  destruct (existsb taggedAssistant (entries lib f)).
  - split; [|split; [|by left]].
    + split; [done|]. intros H. destruct (proj1 Hex eq_refl) as (e & He & Ht).
      by destruct (H e He).
    + split; [|done]. intros _. by apply Hex.
  - split; [|split; [|by right]].
    + split; [|done]. intros _ e He Ht.
      assert (false = true); [|done]. apply Hex. eauto.
    + split; [done|]. intros H. by apply Hex in H.
Qed.

Lemma exitCode_assistant_witness :
  ∃ r, parseTranscript GoJSON.lib GoJSON.ascending
         (Examples.disk1 "/t/s.jsonl" Examples.basic) "/t/s.jsonl" = Some r ∧
       (ExitCode r = 0%Z ↔
          ∃ e, e ∈ entries GoJSON.lib Examples.basic ∧
               jsonlLine.Type_ e = "assistant").
Proof.
  eexists. split; [exact parse_basic|].
  exact (proj1 (proj2 (exitCode_assistant GoJSON.lib GoJSON.ascending
           (Examples.disk1 "/t/s.jsonl" Examples.basic) "/t/s.jsonl"
           Examples.basic _ eq_refl parse_basic))).
Defined.

(** ** Two parses of one file *)

(** C5 (amended): two parses of the same file agree on whether there is a
    result and on every field except the order of [FilesChanged]: the two
    slices hold the same paths, each once, in an order that is the
    runtime's; with the same map order the two results are equal. *)
Theorem parseTranscript_deterministic {Line Raw} (lib : Lib Line Raw)
    ro1 ro2 (fs : FS Line) path :
  match parseTranscript lib ro1 fs path, parseTranscript lib ro2 fs path with
  | Some r1, Some r2 =>
    SessionID r1 = SessionID r2 ∧
    TranscriptPath r1 = TranscriptPath r2 ∧
    WorkingDir r1 = WorkingDir r2 ∧
    DurationMs r1 = DurationMs r2 ∧
    ExitCode r1 = ExitCode r2 ∧
    FilesChanged r1 ≡ₚ FilesChanged r2 ∧
    NoDup (FilesChanged r1) ∧
    (FilesChanged r1 = FilesChanged r2 → r1 = r2)
  | None, None => True
  | _, _ => False
  end ∧
  ((∀ m : gmap string bool, range_of ro1 bool m = range_of ro2 bool m) →
   parseTranscript lib ro1 fs path = parseTranscript lib ro2 fs path).
Proof.
  split.
  - unfold parseTranscript. destruct (fs path) as [f|]; [|done].
    destruct (String.eqb _ ""); [done|]. cbn.
    repeat split; try done.
    + apply range_keys_perm.
    + apply range_keys_NoDup.
    + by intros ->.
  - intros Hro. unfold parseTranscript, range_keys.
    destruct (fs path) as [f|]; [|done]. by rewrite Hro.
Qed.

(** C5 (as stated) fails: the same file parsed under two map orders yields
    two different [FilesChanged] slices. *)
Lemma parseTranscript_order_differs :
  ∃ r1 r2,
    parseTranscript GoJSON.lib GoJSON.ascending
      (Examples.disk1 "/t/s.jsonl" Examples.basic) "/t/s.jsonl" = Some r1 ∧
    parseTranscript GoJSON.lib GoJSON.descending
      (Examples.disk1 "/t/s.jsonl" Examples.basic) "/t/s.jsonl" = Some r2 ∧
    FilesChanged r1 = ["/work/a.go"; "/work/b.go"] ∧
    FilesChanged r2 = ["/work/b.go"; "/work/a.go"] ∧
    r1 ≠ r2.
Proof.
  eexists _, _. split; [|split]; [vm_compute; reflexivity..|].
  repeat split. discriminate.
Qed.

(** ** Two tags on one line *)

(** C10: the exit code looks at the top-level [type] of the lines only,
    [FilesChanged] at their [message.role] and tool calls only; so a
    transcript whose assistant-role messages all have another top-level
    type gets changed files together with exit code 1. *)
Theorem exitCode_and_filesChanged_tags :
  (∀ {Line Raw} (lib : Lib Line Raw) ro (fs : FS Line) path f r,
     fs path = Some f →
     parseTranscript lib ro fs path = Some r →
     (ExitCode r = 0%Z ↔
        ∃ e, e ∈ entries lib f ∧ jsonlLine.Type_ e = "assistant") ∧
     (∀ p, p ∈ FilesChanged r ↔
        ∃ line, line ∈ lines f ∧ lineWrites lib p line)) ∧
  (∃ r, parseTranscript GoJSON.lib GoJSON.ascending
          (Examples.disk1 "/t/s.jsonl" Examples.untagged) "/t/s.jsonl" = Some r ∧
        FilesChanged r = ["/work/a.go"] ∧
        ExitCode r = 1%Z ∧
        Forall (λ e, jsonlLine.Type_ e ≠ "assistant")
               (entries GoJSON.lib Examples.untagged)).
Proof.
  split.
  - intros Line Raw lib ro fs path f r Hf Hr. split.
    + rewrite (exitCode_spec lib ro fs path f r Hf Hr).
      rewrite <- existsb_taggedAssistant.
      by destruct (existsb taggedAssistant (entries lib f)).
    + intros p. unfold parseTranscript in Hr. rewrite Hf in Hr.
      destruct (String.eqb _ ""); [done|]. injection Hr as <-. cbn.
      rewrite range_keys_elem. unfold scan. rewrite scan_filesChanged.
      cbn. rewrite lookup_empty. split.
      * by intros [[? [=]]|?].
      * by right.
  - eexists. split; [vm_compute; reflexivity|]. cbn.
    repeat split. vm_compute. repeat constructor; discriminate.
Qed.

(** ** One sweep, entry by entry *)

(** The eviction test of [check]. *)
Definition evicts (now : Time) (tf : trackedFile) : bool :=
  reported tf && negb (IsZero (reportedAt tf))
  && (cleanupGrace <=? Sub now (reportedAt tf))%Z.

(** The entry is marked reported and queued. *)
Definition completes (now : Time) (th : Duration) (pc : string → bool)
    (p : string) (tf : trackedFile) : bool :=
  negb (reported tf) && negb (Sub now (lastWrite tf) <? th)%Z && negb (pc p).

Definition markReported (now : Time) (tf : trackedFile) : trackedFile :=
  {| path := path tf; lastWrite := lastWrite tf;
     reported := true; reportedAt := now |}.

(** The entry after the sweep has visited it; [None] when it is deleted. *)
Definition entryAfter (now : Time) (th : Duration) (pc : string → bool)
    (p : string) (tf : trackedFile) : option trackedFile :=
  if evicts now tf then None
  else if completes now th pc p tf then Some (markReported now tf)
  else Some tf.

Abbreviation occ p l := (count_occ String.string_dec l p).

Definition b2n (b : bool) : nat := if b then 1 else 0.

Lemma checkEntry_cases now th pc fs ready p tf :
  checkEntry now th pc (fs, ready) (p, tf) =
  (match entryAfter now th pc p tf with
   | None => delete p fs
   | Some tf' => if completes now th pc p tf then <[p := tf']> fs else fs
   end,
   if completes now th pc p tf then ready ++ [p] else ready).
Proof.
  unfold checkEntry, entryAfter, completes, evicts, markReported.
  destruct (reported tf); cbn.
  - by destruct (negb (IsZero (reportedAt tf)) && _).
  - destruct (Sub now (lastWrite tf) <? th)%Z; cbn; [done|].
    by destruct (pc p).
Qed.

Lemma occ_snoc (l : list string) p q :
  occ p (l ++ [q]) = (occ p l + (if String.string_dec q p then 1 else 0))%nat.
Proof. rewrite count_occ_app. cbn. by destruct (String.string_dec q p). Qed.

Lemma checkEntry_other now th pc fs ready q tf p :
  p ≠ q →
  (checkEntry now th pc (fs, ready) (q, tf)).1 !! p = fs !! p ∧
  occ p (checkEntry now th pc (fs, ready) (q, tf)).2 = occ p ready.
Proof.
  intros Hne. rewrite checkEntry_cases. cbn. split.
  - destruct (entryAfter now th pc q tf).
    + destruct (completes now th pc q tf); [|done].
      by rewrite lookup_insert_ne.
    + by rewrite lookup_delete_ne.
  - destruct (completes now th pc q tf); [|done].
    rewrite occ_snoc. destruct (String.string_dec q p); [congruence|lia].
Qed.

Lemma checkEntry_same now th pc fs ready p tf :
  fs !! p = Some tf →
  (checkEntry now th pc (fs, ready) (p, tf)).1 !! p = entryAfter now th pc p tf ∧
  occ p (checkEntry now th pc (fs, ready) (p, tf)).2 =
    (occ p ready + b2n (completes now th pc p tf))%nat.
Proof.
  intros Hp. rewrite checkEntry_cases. cbn. split.
  - unfold entryAfter. destruct (evicts now tf).
    + by rewrite lookup_delete_eq.
    + destruct (completes now th pc p tf); [|done].
      by rewrite lookup_insert_eq.
  - destruct (completes now th pc p tf); cbn; [|lia].
    rewrite occ_snoc. by destruct (String.string_dec p p).
Qed.

(** The loop over the entries [l], each key once. *)
Lemma checkLoop_spec now th pc (l : list (string * trackedFile)) :
  ∀ fs ready, NoDup l.*1 →
  ∀ p,
    (p ∉ l.*1 →
       (foldl (checkEntry now th pc) (fs, ready) l).1 !! p = fs !! p ∧
       occ p (foldl (checkEntry now th pc) (fs, ready) l).2 = occ p ready) ∧
    (∀ tf, (p, tf) ∈ l → fs !! p = Some tf →
       (foldl (checkEntry now th pc) (fs, ready) l).1 !! p
         = entryAfter now th pc p tf ∧
       occ p (foldl (checkEntry now th pc) (fs, ready) l).2
         = (occ p ready + b2n (completes now th pc p tf))%nat).
Proof.
  induction l as [|[q tq] l IH]; intros fs ready Hnd p.
  { split; [done|]. intros tf H. by apply elem_of_nil in H. }
  cbn [foldl]. cbn in Hnd. apply NoDup_cons in Hnd as [Hq Hnd].
  destruct (checkEntry now th pc (fs, ready) (q, tq)) as [fs1 ready1] eqn:E1.
  destruct (IH fs1 ready1 Hnd p) as [IHout IHin].
  split.
  - intros Hp. cbn in Hp. apply not_elem_of_cons in Hp as [Hpq Hp].
    destruct (checkEntry_other now th pc fs ready q tq p Hpq) as [H1 H2].
    rewrite E1 in H1, H2. cbn in H1, H2.
    destruct (IHout Hp) as [-> ->]. done.
  - intros tf [[= <- <-]|Hin]%elem_of_cons Hfs.
    + destruct (checkEntry_same now th pc fs ready p tf Hfs) as [H1 H2].
      rewrite E1 in H1, H2. cbn in H1, H2.
      destruct (IHout Hq) as [-> ->]. done.
    + assert (Hpq : p ≠ q).
      { intros ->. apply Hq. apply list_elem_of_fmap. by exists (q, tf). }
      destruct (checkEntry_other now th pc fs ready q tq p Hpq) as [H1 H2].
      rewrite E1 in H1, H2. cbn in H1, H2.
      destruct (IHin tf Hin) as [-> ->]; [congruence|]. by rewrite H2.
Qed.

Section TrackerFacts.
Context {Line : Type}.
Implicit Types (w : Sweep Line) (t : Tracker) (evs : list (event Line)).

Lemma checkLocked_spec w t p :
  files (checkLocked w t).1 !! p =
    files t !! p ≫= entryAfter (now w) (idleThreshold t) (processCheck w) p ∧
  occ p (readyPaths w t) =
    match files t !! p with
    | Some tf => b2n (completes (now w) (idleThreshold t) (processCheck w) p tf)
    | None => 0%nat
    end.
Proof.
  unfold readyPaths, checkLocked.
  pose proof (range_perm (filesOrder w) _ (files t)) as Hperm.
  assert (Hnd : NoDup (range_of (filesOrder w) _ (files t)).*1).
  { rewrite Hperm. apply NoDup_fst_map_to_list. }
  destruct (checkLoop_spec (now w) (idleThreshold t) (processCheck w)
              _ (files t) [] Hnd p) as [Hout Hin].
  destruct (foldl _ _ _) as [fs ready] eqn:E. cbn in *.
  destruct (files t !! p) as [tf|] eqn:Hp; cbn.
  - apply Hin; [|done]. rewrite Hperm. by apply elem_of_map_to_list.
  - apply Hout. rewrite Hperm. intros ([k v] & -> & H)%list_elem_of_fmap.
    apply elem_of_map_to_list in H. cbn in Hp. congruence.
Qed.

Lemma checkLocked_idleThreshold w t :
  idleThreshold (checkLocked w t).1 = idleThreshold t.
Proof. unfold checkLocked. by destruct (foldl _ _ _). Qed.

Lemma step_idleThreshold t (e : event Line) : idleThreshold (step t e) = idleThreshold t.
Proof.
  destruct e as [n q|w]; cbn.
  - unfold Touch. by destruct (files t !! q).
  - apply checkLocked_idleThreshold.
Qed.

Lemma run_idleThreshold evs : ∀ t, idleThreshold (run t evs) = idleThreshold t.
Proof.
  induction evs as [|e evs IH]; intros t; [done|].
  cbn. unfold run in IH. by rewrite IH, step_idleThreshold.
Qed.

Lemma Touch_other n q t p : p ≠ q → files (Touch n q t) !! p = files t !! p.
Proof.
  intros Hne. unfold Touch.
  destruct (files t !! q); cbn; by rewrite lookup_insert_ne.
Qed.

Lemma Touch_same n p t :
  files (Touch n p t) !! p =
  Some match files t !! p with
       | Some tf => {| path := path tf; lastWrite := n; reported := false;
                       reportedAt := reportedAt tf |}
       | None => {| path := p; lastWrite := n; reported := false;
                    reportedAt := 0%Z |}
       end.
Proof. unfold Touch. destruct (files t !! p); cbn; by rewrite lookup_insert_eq. Qed.

Lemma noTouch_cons p (e : event Line) evs :
  noTouch p (e :: evs) ↔ noTouch p evs ∧ ∀ n, e ≠ EvTouch n p.
Proof.
  unfold noTouch. split.
  - intros H. split.
    + intros n Hn. apply (H n). by right.
    + intros n ->. apply (H n). left.
  - intros [H1 H2] n [Hn|Hn]%elem_of_cons; [by apply (H2 n)|by apply (H1 n)].
Qed.

Lemma run_app evs1 evs2 t : run t (evs1 ++ evs2) = run (run t evs1) evs2.
Proof. unfold run. apply foldl_app. Qed.

(** While the two conditions do not hold together, an unreported entry
    stays as it is and nothing is emitted for it. *)
Lemma waiting p tf evs : ∀ t,
  files t !! p = Some tf → reported tf = false →
  noTouch p evs →
  (∀ w, EvSweep w ∈ evs → ¬ idleAndDead t p (lastWrite tf) w) →
  files (run t evs) !! p = Some tf ∧ occ p (emitted t evs) = 0%nat.
Proof.
  induction evs as [|e evs IH]; intros t Hp Hr Hnt Hw; [done|].
  apply noTouch_cons in Hnt as [Hnt He].
  assert (Hstep : files (step t e) !! p = Some tf ∧
                  occ p (match e with
                         | EvTouch _ _ => []
                         | EvSweep w => readyPaths w t
                         end) = 0%nat).
  { destruct e as [n q|w]; cbn.
    - split; [|done]. rewrite Touch_other; [done|]. intros ->. by apply (He n).
    - destruct (checkLocked_spec w t p) as [-> ->]. rewrite Hp. cbn.
      assert (Hc : completes (now w) (idleThreshold t) (processCheck w) p tf = false).
      { destruct (completes _ _ _ _ _) eqn:Ec; [|done].
        destruct (Hw w); [left|]. unfold completes in Ec.
        rewrite Hr in Ec. cbn in Ec.
        apply andb_true_iff in Ec as [E1 E2]. split.
        - apply negb_true_iff, Z.ltb_ge in E1. done.
        - by apply negb_true_iff in E2. }
      unfold entryAfter, evicts. rewrite Hc, Hr. done. }
  destruct Hstep as [Hp' Ho].
  destruct (IH (step t e) Hp' Hr Hnt) as [Hfin Hocc].
  { intros w Hin. unfold idleAndDead. rewrite step_idleThreshold.
    apply Hw. by right. }
  split; [done|]. cbn [emitted]. rewrite count_occ_app. lia.
Qed.

(** An entry that is reported, or absent, is never emitted until it is
    touched; it stays reported, unchanged, or becomes absent. *)
Lemma settled p evs : ∀ t,
  (files t !! p = None ∨ ∃ tf, files t !! p = Some tf ∧ reported tf = true) →
  noTouch p evs →
  occ p (emitted t evs) = 0%nat ∧
  (files (run t evs) !! p = None ∨ files (run t evs) !! p = files t !! p).
Proof.
  induction evs as [|e evs IH]; intros t Hp Hnt; [by split; [|right]|].
  apply noTouch_cons in Hnt as [Hnt He].
  assert (Hstep : (files (step t e) !! p = None ∨
                   files (step t e) !! p = files t !! p) ∧
                  occ p (match e with
                         | EvTouch _ _ => []
                         | EvSweep w => readyPaths w t
                         end) = 0%nat).
  { destruct e as [n q|w]; cbn.
    - split; [|done]. right. rewrite Touch_other; [done|].
      intros ->. by apply (He n).
    - destruct (checkLocked_spec w t p) as [-> ->].
      destruct Hp as [->|(tf & -> & Hr)]; cbn; [by split; [left|]|].
      unfold entryAfter, completes. rewrite Hr. cbn.
      destruct (evicts (now w) tf); by split; [left + right|]. }
  destruct Hstep as [Hp' Ho].
  destruct (IH (step t e)) as [Hocc Hfin]; [|done|].
  { destruct Hp' as [->| ->]; [by left|done]. }
  split.
  - cbn [emitted]. rewrite count_occ_app. lia.
  - cbn. fold (run (step t e) evs).
    destruct Hfin as [->| ->]; [by left|]. done.
Qed.

(** Under a process check that always answers true nothing is emitted. *)
Lemma alive p evs : ∀ t,
  (∀ w, EvSweep w ∈ evs → processCheck w p = true) →
  occ p (emitted t evs) = 0%nat.
Proof.
  induction evs as [|e evs IH]; intros t Hw; [done|].
  cbn [emitted]. rewrite count_occ_app, IH.
  2: { intros w Hin. apply Hw. by right. }
  destruct e as [n q|w]; [done|].
  destruct (checkLocked_spec w t p) as [_ ->].
  destruct (files t !! p) as [tf|]; [|done].
  unfold completes. rewrite (Hw w); [|left].
  by rewrite andb_false_r.
Qed.

(** The first sweep of an episode at which both conditions hold emits the
    path once; no sweep before it or after it does. *)
Lemma episode p tf (pre : list (event Line)) w (post : list (event Line)) t :
  files t !! p = Some tf → reported tf = false →
  noTouch p pre → noTouch p post →
  (∀ w', EvSweep w' ∈ pre → ¬ idleAndDead t p (lastWrite tf) w') →
  idleAndDead t p (lastWrite tf) w →
  occ p (emitted t pre) = 0%nat ∧
  occ p (readyPaths w (run t pre)) = 1%nat ∧
  occ p (emitted (run t (pre ++ [EvSweep w])) post) = 0%nat.
Proof.
  intros Hp Hr Hpre Hpost Hw [Hidle Hdead].
  destruct (waiting p tf pre t Hp Hr Hpre Hw) as [Hp1 Ho1].
  assert (Hc : completes (now w) (idleThreshold (run t pre)) (processCheck w) p tf
               = true).
  { unfold completes. rewrite Hr, Hdead, run_idleThreshold. cbn.
    rewrite andb_true_r. apply negb_true_iff, Z.ltb_ge. done. }
  destruct (checkLocked_spec w (run t pre) p) as [Hl Ho]. rewrite Hp1 in Hl, Ho.
  rewrite Hc in Ho. split; [done|]. split; [done|].
  apply settled; [|done]. right. rewrite run_app. cbn.
  fold (step (run t pre) (EvSweep w)). cbn [step]. rewrite Hl. cbn.
  unfold entryAfter, evicts. rewrite Hr, Hc. cbn. eauto.
Qed.
End TrackerFacts.

(** ** Completions and callbacks *)

(** The number of sessions in [l] that were parsed from the path [p]. *)
Definition calls (p : string) (l : list CompletedSession) : nat :=
  length (filter (λ r, TranscriptPath r = p) l).

Section Completions.
Context {Line Raw : Type} (lib : Lib Line Raw).
Implicit Types (w : Sweep Line) (t : Tracker) (evs : list (event Line)).

Lemma parseTranscript_path ro (fs : FS Line) p r :
  parseTranscript lib ro fs p = Some r → TranscriptPath r = p.
Proof.
  unfold parseTranscript. destruct (fs p); [|done].
  destruct (String.eqb _ ""); [done|]. by intros [= <-].
Qed.

Lemma calls_app p l1 l2 : calls p (l1 ++ l2) = (calls p l1 + calls p l2)%nat.
Proof. unfold calls. by rewrite filter_app, length_app. Qed.

(** Each queued path is parsed once, and handed over when the parse gives
    a result. *)
Lemma callbacks_calls w p (ready : list string) :
  calls p (callbacks lib w ready) =
  match parseTranscript lib (parseOrder w p) (disk w) p with
  | Some _ => occ p ready
  | None => 0%nat
  end.
Proof.
  induction ready as [|q ready IH].
  { by destruct (parseTranscript _ _ _ _). }
  unfold callbacks in *. cbn [omap list_omap count_occ].
  destruct (String.string_dec q p) as [->|Hne].
  - destruct (parseTranscript lib (parseOrder w p) (disk w) p) as [r|] eqn:E;
      [|done].
    change (r :: ?l) with ([r] ++ l). rewrite calls_app, IH.
    unfold calls. rewrite filter_cons_True; [done|].
    by apply parseTranscript_path in E.
  - destruct (parseTranscript lib (parseOrder w q) (disk w) q) as [r|] eqn:E;
      [|done].
    change (r :: ?l) with ([r] ++ l). rewrite calls_app, IH.
    unfold calls. rewrite filter_cons_False; [done|].
    apply parseTranscript_path in E. congruence.
Qed.

Lemma check_locked w t :
  (check lib w t).1 = (checkLocked w t).1 ∧
  (check lib w t).2 = callbacks lib w (readyPaths w t).
Proof. unfold check, readyPaths. by destruct (checkLocked w t). Qed.

Lemma check_calls w t p :
  calls p (check lib w t).2 =
  match parseTranscript lib (parseOrder w p) (disk w) p with
  | Some _ => occ p (readyPaths w t)
  | None => 0%nat
  end.
Proof. destruct (check_locked w t) as [_ ->]. apply callbacks_calls. Qed.

Lemma delivered_calls p evs : ∀ t,
  (calls p (delivered lib t evs) ≤ occ p (emitted t evs))%nat.
Proof.
  induction evs as [|e evs IH]; intros t; [done|].
  cbn [delivered emitted]. rewrite calls_app, count_occ_app.
  specialize (IH (step t e)).
  destruct e as [n q|w]; [exact IH|].
  rewrite check_calls. destruct (parseTranscript _ _ _ _); lia.
Qed.

Lemma readyPaths_elem w t p :
  p ∈ readyPaths w t →
  ∃ tf, files t !! p = Some tf ∧ reported tf = false ∧
        idleAndDead t p (lastWrite tf) w.
Proof.
  intros Hin. apply list_elem_of_In in Hin.
  apply (count_occ_In String.string_dec) in Hin.
  destruct (checkLocked_spec w t p) as [_ Ho]. rewrite Ho in Hin.
  destruct (files t !! p) as [tf|]; [|lia]. exists tf. split; [done|].
  destruct (completes _ _ _ _ _) eqn:Ec; [|cbn in Hin; lia].
  unfold completes in Ec.
  apply andb_true_iff in Ec as [Ec E3]. apply andb_true_iff in Ec as [E1 E2].
  split; [by apply negb_true_iff in E1|]. split.
  - by apply negb_true_iff, Z.ltb_ge in E2.
  - by apply negb_true_iff in E3.
Qed.

(** C1: a sweep emits a completion for a path only when its idle time has
    reached the threshold and the process check answers false. In an
    episode (the entry not reported, no Touch of the path), the first sweep
    at which both hold emits exactly one completion, parsed once and handed
    to the callback when the parse gives a result; no sweep before or after
    it emits one. Under a process check that always answers true no
    completion is ever emitted; and a path never has more callbacks than
    completions. *)
Theorem sweep_completion t p :
  (∀ w, p ∈ readyPaths w t →
     ∃ tf, files t !! p = Some tf ∧ reported tf = false ∧
           (idleThreshold t ≤ Sub (now w) (lastWrite tf))%Z ∧
           processCheck w p = false) ∧
  (∀ tf (pre post : list (event Line)) w,
     files t !! p = Some tf → reported tf = false →
     noTouch p pre → noTouch p post →
     (∀ w', EvSweep w' ∈ pre → ¬ idleAndDead t p (lastWrite tf) w') →
     idleAndDead t p (lastWrite tf) w →
     occ p (emitted t pre) = 0%nat ∧
     occ p (readyPaths w (run t pre)) = 1%nat ∧
     calls p (check lib w (run t pre)).2 =
       match parseTranscript lib (parseOrder w p) (disk w) p with
       | Some _ => 1%nat
       | None => 0%nat
       end ∧
     occ p (emitted (run t (pre ++ [EvSweep w])) post) = 0%nat) ∧
  (∀ evs, (∀ w, EvSweep w ∈ evs → processCheck w p = true) →
     occ p (emitted t evs) = 0%nat) ∧
  (∀ evs, (calls p (delivered lib t evs) ≤ occ p (emitted t evs))%nat).
Proof.
  split; [|split; [|split]].
  - intros w Hin. by apply readyPaths_elem.
  - intros tf pre post w Hp Hr Hpre Hpost Hw Hnow.
    destruct (episode p tf pre w post t Hp Hr Hpre Hpost Hw Hnow)
      as (H1 & H2 & H3).
    repeat split; try done. by rewrite check_calls, H2.
  - intros evs. apply alive.
  - intros evs. apply delivered_calls.
Qed.

(** C2: a Touch of a reported entry that is still tracked sets [reported]
    to false and [lastWrite] to now; after it the first sweep at which the
    idle threshold has elapsed again and the process check answers false
    emits exactly one completion, and no other sweep of the episode does. *)
Theorem touch_reopens (t : Tracker) (p : string) tf (n0 : Time) :
  files t !! p = Some tf → reported tf = true →
  files (Touch n0 p t) !! p =
    Some {| path := path tf; lastWrite := n0; reported := false;
            reportedAt := reportedAt tf |} ∧
  ∀ (pre post : list (event Line)) w,
    noTouch p pre → noTouch p post →
    (∀ w', EvSweep w' ∈ pre → ¬ idleAndDead t p n0 w') →
    idleAndDead t p n0 w →
    occ p (emitted (Touch n0 p t) pre) = 0%nat ∧
    occ p (readyPaths w (run (Touch n0 p t) pre)) = 1%nat ∧
    occ p (emitted (run (Touch n0 p t) (pre ++ [EvSweep w])) post) = 0%nat.
Proof.
  intros Hp Hr.
  assert (Ht : files (Touch n0 p t) !! p =
               Some {| path := path tf; lastWrite := n0; reported := false;
                       reportedAt := reportedAt tf |}).
  { by rewrite Touch_same, Hp. }
  split; [done|]. intros pre post w Hpre Hpost Hw Hnow.
  assert (Hth : idleThreshold (Touch n0 p t) = idleThreshold t).
  { apply (step_idleThreshold (Line:=Line) t (EvTouch n0 p)). }
  apply (episode p _ pre w post (Touch n0 p t) Ht); try done.
  - intros w' Hin. unfold idleAndDead. rewrite Hth. by apply Hw.
  - unfold idleAndDead. by rewrite Hth.
Qed.

(** ** Eviction *)

(** Every sweep reads a clock that does not show the zero Time. *)
Definition clockSet (evs : list (event Line)) : Prop :=
  ∀ w, EvSweep w ∈ evs → now w ≠ 0%Z.

Definition stamped (t : Tracker) : Prop :=
  ∀ p tf, files t !! p = Some tf → reported tf = true → reportedAt tf ≠ 0%Z.

Lemma stamped_run evs : ∀ t, stamped t → clockSet evs → stamped (run t evs).
Proof.
  induction evs as [|e evs IH]; intros t Hs Hc; [done|].
  cbn. apply IH.
  2: { intros w Hin. apply Hc. by right. }
  intros p tf. destruct e as [n q|w]; cbn.
  - destruct (decide (p = q)) as [->|Hne].
    + rewrite Touch_same. intros [= <-]. by destruct (files t !! q).
    + rewrite Touch_other by done. apply Hs.
  - destruct (checkLocked_spec w t p) as [-> _].
    destruct (files t !! p) as [tf0|] eqn:Hp; [|done]. cbn.
    unfold entryAfter. destruct (evicts (now w) tf0); [done|].
    destruct (completes _ _ _ _ _).
    + intros [= <-] _. cbn. apply (Hc w). apply list_elem_of_here.
    + intros [= <-]. by apply (Hs p tf0).
Qed.

Lemma evicts_due nw tf :
  reported tf = true → reportedAt tf ≠ 0%Z →
  (reportedAt tf + cleanupGrace ≤ nw)%Z →
  evicts nw tf = true.
Proof.
  intros Hr Hz Hdue. unfold evicts, IsZero. rewrite Hr.
  destruct (Z.eqb_spec (reportedAt tf) 0); [done|]. cbn.
  apply Z.leb_le. unfold Sub, cleanupGrace, Minute, Second, Millisecond,
    minDuration, maxDuration in *. lia.
Qed.

(** C8: in any execution from a new tracker, an entry that is reported is
    gone from the map after the first sweep that runs five minutes or more
    after [reportedAt] with no Touch of the path in between; that sweep
    emits no completion and makes no callback for it. The sweep's file
    system is arbitrary: no parse result enters the decision. *)
Theorem eviction_after_grace (th poll : Duration) (hist mid : list (event Line))
    (p : string) tf w :
  clockSet hist →
  files (run (NewTracker th poll) hist) !! p = Some tf →
  reported tf = true →
  noTouch p mid →
  (reportedAt tf + cleanupGrace ≤ now w)%Z →
  let t := run (run (NewTracker th poll) hist) mid in
  (files ((check lib w t).1) !! p = None ∧
   (p ∉ readyPaths w t) ∧
   calls p (check lib w t).2 = 0%nat ∧
   files (run (NewTracker th poll) (hist ++ mid ++ [EvSweep w])) !! p = None).
Proof.
  intros Hclock Hp Hr Hmid Hdue t.
  assert (Hst : stamped (run (NewTracker th poll) hist)).
  { apply stamped_run; [|done]. intros q tq. cbn. by rewrite lookup_empty. }
  destruct (settled p mid (run (NewTracker th poll) hist)) as [_ Hmid'];
    [right; eauto|done|].
  fold t in Hmid'. rewrite Hp in Hmid'.
  destruct (check_locked w t) as [E1 E2].
  destruct (checkLocked_spec w t p) as [Hl Ho].
  assert (Hgone : files (checkLocked w t).1 !! p = None ∧
                  occ p (readyPaths w t) = 0%nat).
  { rewrite Hl, Ho. destruct Hmid' as [->| ->]; [done|]. cbn.
    unfold entryAfter, completes.
    rewrite (evicts_due (now w) tf Hr (Hst p tf Hp Hr) Hdue), Hr. done. }
  destruct Hgone as [Hg1 Hg2].
  split; [by rewrite E1|]. split.
  { intros Hin%list_elem_of_In.
    apply (count_occ_In String.string_dec) in Hin. lia. }
  split.
  { rewrite check_calls, Hg2. by destruct (parseTranscript _ _ _ _). }
  rewrite !run_app. fold t. done.
Qed.

(** ** Stop *)

(** C9 (amended): [Stop] on a tracker whose [done] channel is open returns
    normally and closes the channel, leaving the rest of the tracker as it
    is; a second [Stop] panics. With the channel closed the [done] case of
    the [select] in [Start] is ready, and stays so across sweeps; when
    [select] takes it the loop returns without a sweep. With the channel
    open that case is not ready, and the loop waits. *)
Theorem stop_once t :
  done t = ChanOpen →
  ∃ t', Stop t = Ok t' ∧
        done t' = ChanClosed ∧ files t' = files t ∧
        Stop t' = Panic ∧
        startIter lib t' CaseDone = (Returned t', []) ∧
        (∀ w, done (check lib w t').1 = ChanClosed) ∧
        startIter lib t CaseDone = (Blocked t, []).
Proof.
  intros Hd. unfold Stop, startIter. rewrite Hd. eexists. split; [done|]. cbn.
  rewrite Hd. repeat split.
  intros w. destruct (check_locked w
    {| files := files t; idleThreshold := idleThreshold t;
       pollInterval := pollInterval t; done := ChanClosed |}) as [-> _].
  unfold checkLocked. by destruct (foldl _ _ _).
Qed.
End Completions.

(** ** One path through its life *)

Module Life.
(** 2026-02-14T10:00:00Z *)
Definition T0 : Time := ((739660 * 86400 + 36000) * 1000000000)%Z.

Definition p : string := Examples.uuidPath.

(** A sweep at [n] under a process check that answers [alive]. *)
Definition sweepAt (n : Time) (alive : bool) : Sweep jline :=
  {| now := n; processCheck := λ _, alive;
     filesOrder := GoJSON.ascending;
     disk := Examples.disk1 p Examples.noID;
     parseOrder := λ _, GoJSON.ascending |}.

Definition fresh : Tracker := NewTracker (10 * Second) (15 * Second).

(** Written at [T0], swept 5 s later (too early), 15 s later (reported),
    then 30 s later. *)
Definition touched : Tracker := Touch T0 p fresh.
Definition written : trackedFile :=
  {| path := p; lastWrite := T0; reported := false; reportedAt := 0%Z |}.
Definition early : list (event jline) := [EvSweep (sweepAt (T0 + 5 * Second) false)].
Definition due : Sweep jline := sweepAt (T0 + 15 * Second) false.
Definition late : list (event jline) := [EvSweep (sweepAt (T0 + 30 * Second) false)].

(** The tracker once the path is reported. *)
Definition history : list (event jline) := [EvTouch T0 p; EvSweep due].
Definition done1 : Tracker := run fresh history.
Definition reported1 : trackedFile :=
  {| path := p; lastWrite := T0; reported := true;
     reportedAt := (T0 + 15 * Second)%Z |}.

(** Written again a minute after [T0]. *)
Definition T1 : Time := (T0 + 60 * Second)%Z.
Definition early1 : list (event jline) := [EvSweep (sweepAt (T1 + 5 * Second) false)].
Definition due1 : Sweep jline := sweepAt (T1 + 15 * Second) false.

(** Left alone instead, until five minutes after the report. *)
Definition graceOver : Sweep jline := sweepAt (T0 + 15 * Second + 5 * Minute) false.
End Life.

Lemma noTouch_sweep {Line} p (w : Sweep Line) : noTouch p [EvSweep w].
Proof. intros n H. apply list_elem_of_singleton in H. discriminate. Defined.

Lemma sweep_completion_witness :
  occ Life.p (emitted Life.touched Life.early) = 0%nat ∧
  occ Life.p (readyPaths Life.due (run Life.touched Life.early)) = 1%nat ∧
  calls Life.p (check GoJSON.lib Life.due (run Life.touched Life.early)).2 =
    match parseTranscript GoJSON.lib GoJSON.ascending
            (Examples.disk1 Life.p Examples.noID) Life.p with
    | Some _ => 1%nat
    | None => 0%nat
    end ∧
  occ Life.p (emitted (run Life.touched (Life.early ++ [EvSweep Life.due]))
                Life.late) = 0%nat.
Proof.
  refine (proj1 (proj2 (sweep_completion GoJSON.lib Life.touched Life.p))
            Life.written Life.early Life.late Life.due _ _ _ _ _ _).
  - vm_compute. reflexivity.
  - reflexivity.
  - apply noTouch_sweep.
  - apply noTouch_sweep.
  - intros w' H. apply list_elem_of_singleton in H. injection H as ->.
    intros [Hidle _]. vm_compute in Hidle. by apply Hidle.
  - split; [vm_compute; discriminate|reflexivity].
Defined.

Lemma touch_reopens_witness :
  files (Touch Life.T1 Life.p Life.done1) !! Life.p =
    Some {| path := Life.p; lastWrite := Life.T1; reported := false;
            reportedAt := (Life.T0 + 15 * Second)%Z |} ∧
  occ Life.p (readyPaths Life.due1
                (run (Touch Life.T1 Life.p Life.done1) Life.early1)) = 1%nat.
Proof.
  destruct (touch_reopens (Line:=jline) Life.done1 Life.p Life.reported1 Life.T1)
    as [Hentry Hepisode].
  - vm_compute. reflexivity.
  - reflexivity.
  - split; [exact Hentry|].
    refine (proj1 (proj2 (Hepisode Life.early1 [] Life.due1 _ _ _ _))).
    + apply noTouch_sweep.
    + intros n H. by apply elem_of_nil in H.
    + intros w' H. apply list_elem_of_singleton in H. injection H as ->.
      intros [Hidle _]. vm_compute in Hidle. by apply Hidle.
    + split; [vm_compute; discriminate|reflexivity].
Defined.

Lemma eviction_after_grace_witness :
  files (run Life.fresh (Life.history ++ Life.late ++ [EvSweep Life.graceOver]))
    !! Life.p = None.
Proof.
  refine (proj2 (proj2 (proj2 (eviction_after_grace GoJSON.lib
            (10 * Second) (15 * Second) Life.history Life.late Life.p
            Life.reported1 Life.graceOver _ _ _ _ _)))).
  - intros w H. apply elem_of_cons in H as [H|H]; [discriminate|].
    apply list_elem_of_singleton in H. injection H as ->.
    vm_compute. discriminate.
  - vm_compute. reflexivity.
  - reflexivity.
  - apply noTouch_sweep.
  - vm_compute. discriminate.
Defined.

Lemma stop_once_witness :
  ∃ t', Stop Life.fresh = Ok t' ∧ done t' = ChanClosed ∧ Stop t' = Panic.
Proof.
  destruct (stop_once GoJSON.lib Life.fresh eq_refl)
    as (t' & H1 & H2 & _ & H3 & _).
  exists t'. by repeat split.
Defined.

(** C9 (as stated) fails: a call of [Stop] made after a previous call of
    [Stop] closes a closed channel, and panics. *)
Lemma stop_twice_panics :
  ∃ t', Stop (NewTracker (10 * Second) (15 * Second)) = Ok t' ∧
        Stop t' = Panic.
Proof. eexists. split; reflexivity. Qed.

(** * The rest of the code *)

(** ** More of strings and path/filepath *)

(** [strings.Split(s, sep)] for a separator of one byte: the pieces between
    the separators, of which there is always at least one. *)
Fixpoint splitBytes (sep : ascii) (l : list ascii) : list (list ascii) :=
  match l with
  | [] => [[]]
  | c :: l' =>
    if Ascii.eqb c sep then [] :: splitBytes sep l'
    else
      match splitBytes sep l' with
      | [] => [[c]]
      | piece :: pieces => (c :: piece) :: pieces
      end
  end.

Definition Split (s : string) (sep : ascii) : list string :=
  string_of_list_ascii <$> splitBytes sep (list_ascii_of_string s).

(** [strings.ReplaceAll(s, old, new)] for [old] and [new] of one byte. *)
Definition replaceByte (old new c : ascii) : ascii :=
  if Ascii.eqb c old then new else c.

Definition ReplaceAll (s : string) (old new : ascii) : string :=
  string_of_list_ascii (replaceByte old new <$> list_ascii_of_string s).

(** [strings.HasPrefix] *)
Definition HasPrefix (s pre : string) : bool := String.prefix pre s.

Definition isDot (elem : list ascii) : bool :=
  match elem with ["."%char] => true | _ => false end.

Definition isDotDot (elem : list ascii) : bool :=
  match elem with ["."%char; "."%char] => true | _ => false end.

(** One path element met by [filepath.Clean]; [stack] holds the elements
    kept so far, the last one first. Empty and "." elements are dropped; a
    ".." removes the element before it, is dropped at the root, and is kept
    at the start of a path that is not rooted. *)
Definition cleanStep (rooted : bool) (stack : list (list ascii))
    (elem : list ascii) : list (list ascii) :=
  match elem with
  | [] => stack
  | _ =>
    if isDot elem then stack
    else if isDotDot elem then
      match stack with
      | top :: below => if isDotDot top then elem :: stack else below
      | [] => if rooted then [] else [elem]
      end
    else elem :: stack
  end.

Fixpoint joinBytes (sep : ascii) (elems : list (list ascii)) : list ascii :=
  match elems with
  | [] => []
  | [e] => e
  | e :: elems' => e ++ sep :: joinBytes sep elems'
  end.

(** [filepath.Clean] on Unix, on bytes. *)
Definition cleanBytes (l : list ascii) : list ascii :=
  match l with
  | [] => ["."%char]
  | c :: _ =>
    let rooted := isPathSeparator c in
    let stack := foldl (cleanStep rooted) [] (splitBytes "/" l) in
    let out := (if rooted then ["/"%char] else []) ++ joinBytes "/" (rev stack) in
    match out with
    | [] => ["."%char]
    | _ => out
    end
  end.

Definition Clean (path : string) : string :=
  string_of_list_ascii (cleanBytes (list_ascii_of_string path)).

(** [filepath.Dir] on Unix: the path up to its last separator, cleaned. *)
Definition Dir (path : string) : string :=
  let l := list_ascii_of_string path in
  let upto := rev (dropWhile (λ c, negb (isPathSeparator c)) (rev l)) in
  string_of_list_ascii (cleanBytes upto).

Example Dir_tests :
  Dir "/home/mike/.claude/projects/-home-mike-Warren/s.jsonl"
    = "/home/mike/.claude/projects/-home-mike-Warren" ∧
  Dir "/home/mike/.claude/projects/-home-mike-Warren" = "/home/mike/.claude/projects" ∧
  Dir "s.jsonl" = "." ∧ Dir "" = "." ∧ Dir "/s.jsonl" = "/" ∧ Dir "/" = "/" ∧
  Dir "a//b/../c/./d" = "a/c" ∧ Dir "../../x" = "../.." ∧ Dir "/../x" = "/" ∧
  Clean "a/../.." = ".." ∧ Clean "/a/b/../../.." = "/" ∧ Clean "a/.." = ".".
Proof. repeat split; reflexivity. Qed.

Example Split_tests :
  Split "" "000" = [""] ∧
  Split ("claude" ++ String "000" ("--print" ++ String "000" "")) "000"
    = ["claude"; "--print"; ""].
Proof. repeat split; reflexivity. Qed.

(** ** tracker.go: the process check *)

(** An entry of a directory listing. *)
Record DirEntry := {
  entryName : string;
  entryIsDir : bool
}.

(** The operating system as the process check reads it; [None] is a
    non-nil [err]. *)
Record Procfs := {
  (** [os.ReadDir("/proc")] *)
  readProc : option (list DirEntry);
  (** [os.ReadFile(filepath.Join("/proc", name, "cmdline"))] *)
  readCmdline : string → option string;
  (** [os.Readlink(filepath.Join("/proc", name, "cwd"))] *)
  readCwd : string → option string;
  (** [os.Stat(path)]: whether [info.IsDir()] *)
  statIsDir : string → option bool
}.

(** The test [len(name) == 0 || name[0] < '0' || name[0] > '9'], negated. *)
Definition startsWithDigit (name : string) : bool :=
  match name with
  | EmptyString => false
  | String c _ => between 48 (byte_of c) 57
  end.

(** The test on one argument of a command line. *)
Definition isClaudeArg (part : string) : bool :=
  let base := Base part in
  String.eqb base "claude" || HasPrefix base "claude-".

(** The inner loop over [parts]: some argument names claude. *)
Definition isClaudeCmdline (cmdline : string) : bool :=
  existsb isClaudeArg (Split cmdline "000").

Definition projectDirFromTranscript (os : Procfs) (transcriptPath : string)
  : string :=
  let dir := Dir transcriptPath in
  let parent := Dir dir in
  if negb (String.eqb (Base parent) "projects") then ""
  else
    let slug := Base dir in
    if String.eqb slug "" || String.eqb slug "." then ""
    else
      let candidate := ReplaceAll slug "-" "/" in
      match statIsDir os candidate with
      | Some true => candidate
      | _ => ""
      end.

(** The loop of [isClaudeRunningForTranscript] over the entries of /proc. *)
Fixpoint procLoop (os : Procfs) (projectDir : string) (entries : list DirEntry)
  : bool :=
  match entries with
  | [] => false
  | entry :: rest =>
    if negb (entryIsDir entry) then procLoop os projectDir rest
    else
      let name := entryName entry in
      if negb (startsWithDigit name) then procLoop os projectDir rest
      else
        match readCmdline os name with
        | None => procLoop os projectDir rest
        | Some cmdline =>
          if negb (isClaudeCmdline cmdline) then procLoop os projectDir rest
          else if String.eqb projectDir "" then true
          else
            match readCwd os name with
            | None => procLoop os projectDir rest
            | Some cwd =>
              if String.eqb cwd projectDir then true
              else procLoop os projectDir rest
            end
        end
  end.

Definition isClaudeRunningForTranscript (os : Procfs) (transcriptPath : string)
  : bool :=
  let projectDir := projectDirFromTranscript os transcriptPath in
  match readProc os with
  | None => false
  | Some entries => procLoop os projectDir entries
  end.

(** The earlier process check, which looks at no working directory:
    [isClaudeRunning]. *)
Fixpoint anyClaudeLoop (os : Procfs) (entries : list DirEntry) : bool :=
  match entries with
  | [] => false
  | entry :: rest =>
    if negb (entryIsDir entry) then anyClaudeLoop os rest
    else
      let name := entryName entry in
      if negb (startsWithDigit name) then anyClaudeLoop os rest
      else
        match readCmdline os name with
        | None => anyClaudeLoop os rest
        | Some cmdline =>
          if isClaudeCmdline cmdline then true else anyClaudeLoop os rest
        end
  end.

Definition isClaudeRunning (os : Procfs) : bool :=
  match readProc os with
  | None => false
  | Some entries => anyClaudeLoop os entries
  end.

(** tracker_test.go: [pathToSlug], the encoding the process check undoes. *)
Definition pathToSlug (p : string) : string :=
  string_of_list_ascii
    ((λ c, if Ascii.eqb c "/" then "-"%char else c) <$> list_ascii_of_string p).

(** ** watcher.go: handleEvent *)

Module fsnotify.
(** The bits of [fsnotify.Op]. *)
Definition Create : Z := 1.
Definition Write : Z := 2.
Definition Remove : Z := 4.
Definition Rename : Z := 8.
Definition Chmod : Z := 16.

Record Event := { Name : string; Op : Z }.
End fsnotify.

(** What [handleEvent] does with an event. *)
Inductive watchAction :=
| WatchDir (path : string)    (* w.fw.Add(event.Name) *)
| TouchFile (path : string)   (* w.tracker.Touch(event.Name) *)
| Ignore.

(** [handleEvent]; [stat] is [os.Stat] as in [statIsDir]. An error of
    [fw.Add] is logged and changes nothing. *)
Definition handleEvent (stat : string → option bool) (ev : fsnotify.Event)
  : watchAction :=
  let isNewDir :=
    if negb (Z.land (fsnotify.Op ev) fsnotify.Create =? 0)%Z then
      match stat (fsnotify.Name ev) with
      | Some true => true
      | _ => false
      end
    else false in
  if isNewDir then WatchDir (fsnotify.Name ev)
  else if negb (HasSuffix (fsnotify.Name ev) ".jsonl") then Ignore
  else if negb (Z.land (fsnotify.Op ev)
                  (Z.lor fsnotify.Write fsnotify.Create) =? 0)%Z
  then TouchFile (fsnotify.Name ev)
  else Ignore.

(** The tracker behind the watcher: an event reaches it as a [Touch] or
    not at all. [now] is the clock when the event is handled. *)
Definition deliver (stat : string → option bool) (now : Time)
    (ev : fsnotify.Event) (t : Tracker) : Tracker :=
  match handleEvent stat ev with
  | TouchFile p => Touch now p t
  | _ => t
  end.

(** ** main.go and publisher.go: where a completed session goes *)

Definition subjectCompleted : string := "swarm.cc.session.completed".
Definition subjectFailed : string := "swarm.cc.session.failed".

(** The callback [main] gives to [NewTracker]: the subject and the event
    type of the publication it asks for. *)
Definition onCompleteRoute (s : CompletedSession) : string * string :=
  if negb (ExitCode s =? 0)%Z
  then (subjectFailed, "cc.session.failed")
  else (subjectCompleted, "cc.session.completed").

(** ** More on what the scan loop accumulates *)

Section ParserMore.
Context {Line Raw : Type} (lib : Lib Line Raw).

Lemma scanLine_workingDir st line e :
  entryOf lib line = Some e →
  workingDir (scanLine lib st line) =
    (if negb (String.eqb (jsonlLine.CWD e) "") && String.eqb (workingDir st) ""
     then jsonlLine.CWD e else workingDir st).
Proof.
  unfold entryOf, scanLine.
  destruct (lineEmpty lib line); [done|]. intros ->.
  destruct (String.eqb (jsonlLine.Timestamp e) ""); cbn; [done|].
  by destruct (time_Parse lib (jsonlLine.Timestamp e)).
Qed.

Lemma scan_workingDir ls : ∀ st,
  workingDir (foldl (scanLine lib) st ls) =
  if String.eqb (workingDir st) ""
  then firstNonEmpty (jsonlLine.CWD <$> entriesOf lib ls)
  else workingDir st.
Proof.
  induction ls as [|line ls IH]; intros st; cbn [foldl].
  { cbn. by destruct (String.eqb_spec (workingDir st) ""). }
  rewrite IH. unfold entriesOf. cbn [omap list_omap].
  destruct (entryOf lib line) as [e|] eqn:E; [|by rewrite scanLine_skip].
  rewrite (scanLine_workingDir st line e E). cbn.
  destruct (String.eqb_spec (jsonlLine.CWD e) "") as [He|He],
           (String.eqb_spec (workingDir st) "") as [Hs|Hs]; cbn;
    rewrite ?Hs; try done.
  - by destruct (String.eqb_spec (workingDir st) "").
  - by destruct (String.eqb_spec (jsonlLine.CWD e) "").
  - by destruct (String.eqb_spec (workingDir st) "").
Qed.

Lemma firstNonEmpty_app_first (pre post : list string) s :
  Forall (λ x, x = "") pre → s ≠ "" →
  firstNonEmpty (pre ++ s :: post) = s.
Proof.
  intros Hpre Hs. induction Hpre as [|x pre -> _ IH]; cbn.
  - by destruct (String.eqb_spec s "").
  - done.
Qed.

Lemma firstNonEmpty_app (l1 l2 : list string) :
  firstNonEmpty (l1 ++ l2) =
  if String.eqb (firstNonEmpty l1) "" then firstNonEmpty l2 else firstNonEmpty l1.
Proof.
  induction l1 as [|s l1 IH]; cbn; [done|].
  destruct (String.eqb_spec s "") as [->|Hs]; [done|].
  by destruct (String.eqb_spec s "").
Qed.

Lemma entriesOf_app l1 l2 :
  entriesOf lib (l1 ++ l2) = entriesOf lib l1 ++ entriesOf lib l2.
Proof. unfold entriesOf. apply omap_app. Qed.

(** X1: a [sessionId] in the file wins over the file name: the session id
    is the first non-empty [sessionId] of a line that decodes, and there is
    a result whatever the file is called. *)
Theorem sessionID_from_field ro (fs : FS Line) path f pre e post :
  fs path = Some f →
  entries lib f = pre ++ e :: post →
  Forall (λ e', jsonlLine.SessionID e' = "") pre →
  jsonlLine.SessionID e ≠ "" →
  ∃ r, parseTranscript lib ro fs path = Some r ∧
       SessionID r = jsonlLine.SessionID e.
Proof.
  intros Hf He Hpre Hne.
  rewrite (parseTranscript_open lib ro fs path f Hf). cbn zeta.
  rewrite He, fmap_app, fmap_cons.
  rewrite (firstNonEmpty_app_first _ _ (jsonlLine.SessionID e)); [|by apply Forall_fmap|done].
  destruct (String.eqb_spec (jsonlLine.SessionID e) ""); [done|].
  destruct (String.eqb_spec (jsonlLine.SessionID e) ""); [done|].
  eexists. split; done.
Qed.

(** X2: the working directory of the result is the first non-empty [cwd]
    of a line that decodes, and empty when no line has one. *)
Theorem workingDir_first_cwd ro (fs : FS Line) path f r :
  fs path = Some f →
  parseTranscript lib ro fs path = Some r →
  (∀ pre e post,
     entries lib f = pre ++ e :: post →
     Forall (λ e', jsonlLine.CWD e' = "") pre →
     jsonlLine.CWD e ≠ "" →
     WorkingDir r = jsonlLine.CWD e) ∧
  (Forall (λ e', jsonlLine.CWD e' = "") (entries lib f) → WorkingDir r = "").
Proof.
  intros Hf Hr. unfold parseTranscript in Hr. rewrite Hf in Hr.
  destruct (String.eqb _ ""); [done|]. injection Hr as <-. cbn.
  unfold scan. rewrite scan_workingDir. cbn. fold (entries lib f). split.
  - intros pre e post -> Hpre Hne. rewrite fmap_app, fmap_cons.
    apply firstNonEmpty_app_first; [by apply Forall_fmap|done].
  - intros Hall. apply firstNonEmpty_empty.
    intros s (e & -> & He)%list_elem_of_fmap.
    rewrite Forall_forall in Hall. by apply Hall.
Qed.

(** X3: the changed files of a result hold no path twice and never the
    empty path. *)
Theorem filesChanged_distinct_nonempty ro (fs : FS Line) path r :
  parseTranscript lib ro fs path = Some r →
  NoDup (FilesChanged r) ∧ "" ∉ FilesChanged r.
Proof.
  intros Hr. unfold parseTranscript in Hr.
  destruct (fs path) as [f|]; [|done].
  destruct (String.eqb _ ""); [done|]. injection Hr as <-. cbn. split.
  - apply range_keys_NoDup.
  - rewrite range_keys_elem. unfold scan. rewrite scan_filesChanged.
    cbn. rewrite lookup_empty.
    intros [[? [=]]|(line & _ & _ & msg & blocks & _ & _ & _ & b & _ & Hb)].
    destruct Hb as (_ & _ & input & _ & _ & Hne). done.
Qed.

Lemma scan_filter ls : ∀ st,
  foldl (scanLine lib) st (filter (λ l, is_Some (entryOf lib l)) ls)
  = foldl (scanLine lib) st ls.
Proof.
  induction ls as [|line ls IH]; intros st; [done|].
  destruct (entryOf lib line) as [e|] eqn:E.
  - rewrite filter_cons_True by (rewrite E; eauto). cbn. apply IH.
  - rewrite filter_cons_False by (rewrite E; by intros [? ?]).
    cbn. rewrite (scanLine_skip lib st line E). apply IH.
Qed.

(** X4: lines that are empty or do not decode leave no trace: a file and
    the same file without them give the same result. *)
Theorem undecodable_lines_ignored ro (fs fs' : FS Line) path f f' :
  fs path = Some f → fs' path = Some f' →
  lines f' = filter (λ l, is_Some (entryOf lib l)) (lines f) →
  parseTranscript lib ro fs' path = parseTranscript lib ro fs path.
Proof.
  intros Hf Hf' Hl. unfold parseTranscript, scan.
  by rewrite Hf, Hf', Hl, scan_filter.
Qed.

Lemma parseTranscript_fields ro (fs : FS Line) path f r :
  fs path = Some f →
  parseTranscript lib ro fs path = Some r →
  SessionID r =
    (if String.eqb (firstNonEmpty (jsonlLine.SessionID <$> entries lib f)) ""
     then extractSessionIDFromPath path
     else firstNonEmpty (jsonlLine.SessionID <$> entries lib f)) ∧
  SessionID r ≠ "" ∧
  FilesChanged r = range_keys ro (filesChanged (scan lib f)) ∧
  WorkingDir r = workingDir (scan lib f) ∧
  ExitCode r = (if existsb taggedAssistant (entries lib f) then 0 else 1)%Z.
Proof.
  intros Hf Hr. rewrite (parseTranscript_open lib ro fs path f Hf) in Hr.
  cbn zeta in Hr.
  destruct (String.eqb_spec
              (if String.eqb (firstNonEmpty (jsonlLine.SessionID <$> entries lib f)) ""
               then extractSessionIDFromPath path
               else firstNonEmpty (jsonlLine.SessionID <$> entries lib f)) "")
    as [|Hne]; [done|].
  injection Hr as <-. by repeat split.
Qed.

Lemma parseTranscript_some ro (fs : FS Line) path f :
  fs path = Some f →
  (if String.eqb (firstNonEmpty (jsonlLine.SessionID <$> entries lib f)) ""
   then extractSessionIDFromPath path
   else firstNonEmpty (jsonlLine.SessionID <$> entries lib f)) ≠ "" →
  ∃ r, parseTranscript lib ro fs path = Some r.
Proof.
  intros Hf Hne. rewrite (parseTranscript_open lib ro fs path f Hf).
  cbn zeta.
  destruct (String.eqb_spec
              (if String.eqb (firstNonEmpty (jsonlLine.SessionID <$> entries lib f)) ""
               then extractSessionIDFromPath path
               else firstNonEmpty (jsonlLine.SessionID <$> entries lib f)) "");
    [done|]. eauto.
Qed.

(** X5: appending lines to a transcript keeps what an earlier parse found:
    a result still exists, every changed file is still listed, an exit
    code 0 stays 0, a non-empty working directory stays, and so does a
    session id that came from a [sessionId] field. *)
Theorem append_keeps ro ro' (fs fs' : FS Line) path f f' more r :
  fs path = Some f → fs' path = Some f' →
  lines f' = lines f ++ more →
  parseTranscript lib ro fs path = Some r →
  ∃ r', parseTranscript lib ro' fs' path = Some r' ∧
        (∀ p, p ∈ FilesChanged r → p ∈ FilesChanged r') ∧
        (ExitCode r = 0%Z → ExitCode r' = 0%Z) ∧
        (WorkingDir r ≠ "" → WorkingDir r' = WorkingDir r) ∧
        (Exists (λ e, jsonlLine.SessionID e ≠ "") (entries lib f) →
           SessionID r' = SessionID r).
Proof.
  intros Hf Hf' Hl Hr.
  assert (He : entries lib f' = entries lib f ++ entriesOf lib more).
  { unfold entries. by rewrite Hl, entriesOf_app. }
  assert (Hscan : scan lib f' = foldl (scanLine lib) (scan lib f) more).
  { unfold scan. by rewrite Hl, foldl_app. }
  destruct (parseTranscript_fields ro fs path f r Hf Hr)
    as (HS & HSne & HF & HW & HE).
  pose proof (firstNonEmpty_app (jsonlLine.SessionID <$> entries lib f)
                (jsonlLine.SessionID <$> entriesOf lib more)) as Hall.
  rewrite <- fmap_app, <- He in Hall.
  set (sid := firstNonEmpty (jsonlLine.SessionID <$> entries lib f)) in *.
  set (sid2 := firstNonEmpty (jsonlLine.SessionID <$> entriesOf lib more)) in *.
  set (sid' := firstNonEmpty (jsonlLine.SessionID <$> entries lib f')) in *.
  assert (Hid : (if String.eqb sid' "" then extractSessionIDFromPath path
                 else sid') ≠ "" ∧
                (sid ≠ "" →
                 (if String.eqb sid' "" then extractSessionIDFromPath path
                  else sid') = SessionID r)).
  { rewrite Hall. destruct (String.eqb sid "") eqn:E; cbv iota in HS |- *.
    - apply String.eqb_eq in E. split; [|intros Hn; by destruct (Hn E)].
      destruct (String.eqb sid2 "") eqn:E2;
        [by rewrite <- HS|by apply String.eqb_neq].
    - rewrite E. apply String.eqb_neq in E. split; [done|].
      intros _. by rewrite HS. }
  destruct Hid as [Hne Hkeep].
  destruct (parseTranscript_some ro' fs' path f' Hf' Hne) as [r' Hr'].
  destruct (parseTranscript_fields ro' fs' path f' r' Hf' Hr')
    as (HS' & _ & HF' & HW' & HE').
  exists r'. split; [done|]. split; [|split; [|split]].
  - intros p. rewrite HF, HF', !range_keys_elem, Hscan, scan_filesChanged.
    by left.
  - rewrite HE, HE', He, existsb_app.
    by destruct (existsb taggedAssistant (entries lib f)).
  - rewrite HW, HW', Hscan, scan_workingDir.
    intros Hn. by destruct (String.eqb_spec (workingDir (scan lib f)) "").
  - intros Hex. rewrite HS'. apply Hkeep.
    intros E. unfold sid in E. rewrite firstNonEmpty_empty in E.
    apply Exists_exists in Hex as (e & He1 & He2).
    apply He2, E. by apply list_elem_of_fmap_2.
Qed.
End ParserMore.

(** ** File names that carry a session id *)

Definition noSlash (s : string) : Prop :=
  Forall (λ c, isPathSeparator c = false) (list_ascii_of_string s).

Lemma append_cons c (s1 s2 : string) :
  (String c s1 ++ s2 = String c (s1 ++ s2))%string.
Proof. reflexivity. Qed.

Lemma append_nil (s : string) : ("" ++ s = s)%string.
Proof. reflexivity. Qed.

Lemma list_ascii_app (s1 s2 : string) :
  list_ascii_of_string (s1 ++ s2)
  = list_ascii_of_string s1 ++ list_ascii_of_string s2.
Proof.
  induction s1 as [|c s1 IH]; [done|].
  rewrite append_cons. cbn. by rewrite IH.
Qed.

Lemma string_app_assoc (s1 s2 s3 : string) :
  ((s1 ++ s2) ++ s3 = s1 ++ (s2 ++ s3))%string.
Proof.
  induction s1 as [|c s1 IH]; [done|].
  rewrite !append_cons. by rewrite IH.
Qed.

Lemma string_length_app (s1 s2 : string) :
  String.length (s1 ++ s2) = (String.length s1 + String.length s2)%nat.
Proof.
  induction s1 as [|c s1 IH]; [done|].
  rewrite append_cons. cbn. by rewrite IH.
Qed.

Lemma substring_all (s : string) : substring 0 (String.length s) s = s.
Proof. induction s as [|c s IH]; cbn; [done|]. by rewrite IH. Qed.

Lemma substring_app_r (s1 s2 : string) :
  substring (String.length s1) (String.length s2) (s1 ++ s2) = s2.
Proof.
  induction s1 as [|c s1 IH]; [apply substring_all|].
  rewrite append_cons. cbn. done.
Qed.

Lemma substring_app_l (s1 s2 : string) :
  substring 0 (String.length s1) (s1 ++ s2) = s1.
Proof.
  induction s1 as [|c s1 IH]; [rewrite append_nil; by destruct s2|].
  rewrite append_cons. cbn. by rewrite IH.
Qed.

Lemma TrimSuffix_app (s suffix : string) : TrimSuffix (s ++ suffix) suffix = s.
Proof.
  unfold TrimSuffix, HasSuffix. rewrite string_length_app.
  replace (String.length s + String.length suffix - String.length suffix)%nat
    with (String.length s) by lia.
  rewrite substring_app_r, String.eqb_refl, substring_app_l.
  destruct (Nat.leb_spec (String.length suffix)
              (String.length s + String.length suffix)); [done|lia].
Qed.

Lemma sliceFrom_app (s1 s2 : string) : sliceFrom (String.length s1) (s1 ++ s2) = s2.
Proof.
  unfold sliceFrom. rewrite string_length_app.
  replace (String.length s1 + String.length s2 - String.length s1)%nat
    with (String.length s2) by lia.
  apply substring_app_r.
Qed.

Lemma dropWhile_stop {A} (f : A → bool) x l :
  f x = false → dropWhile f (x :: l) = x :: l.
Proof. intros H. cbn. by rewrite H. Qed.

Lemma takeWhile_app_stop {A} (f : A → bool) l1 x l2 :
  Forall (λ y, f y = true) l1 → f x = false →
  takeWhile f (l1 ++ x :: l2) = l1.
Proof.
  intros H1 Hx. induction H1 as [|y l1 Hy _ IH]; cbn.
  - by rewrite Hx.
  - by rewrite Hy, IH.
Qed.

Lemma takeWhile_all {A} (f : A → bool) l :
  Forall (λ y, f y = true) l → takeWhile f l = l.
Proof. induction 1 as [|y l Hy _ IH]; cbn; [done|]. by rewrite Hy, IH. Qed.

(** The base name of a name that follows a directory part. *)
Lemma Base_name (dirpart name : string) :
  (dirpart = "" ∨ ∃ d, dirpart = (d ++ "/")%string) →
  name ≠ "" → noSlash name →
  Base (dirpart ++ name) = name.
Proof.
  intros Hd Hne Hns. unfold Base.
  assert (Hnil : list_ascii_of_string name ≠ []).
  { intros E. apply Hne. rewrite <- (string_of_list_ascii_of_string name).
    by rewrite E. }
  destruct (String.eqb_spec (dirpart ++ name) "") as [E|_].
  { apply (f_equal list_ascii_of_string) in E. rewrite list_ascii_app in E.
    by apply app_eq_nil in E as [_ ?]. }
  rewrite list_ascii_app, rev_app_distr.
  set (ln := list_ascii_of_string name) in *.
  assert (Hrev : Forall (λ c, negb (isPathSeparator c) = true) (rev ln)).
  { apply Forall_forall. intros c Hc%list_elem_of_In%in_rev%list_elem_of_In.
    unfold noSlash in Hns. rewrite Forall_forall in Hns.
    by rewrite (Hns c Hc). }
  destruct (rev ln) as [|c0 rl] eqn:Erl.
  { apply (f_equal (@rev _)) in Erl. rewrite rev_involutive in Erl. done. }
  assert (Hc0 : isPathSeparator c0 = false).
  { apply Forall_cons in Hrev as [H0 _]. by apply negb_true_iff in H0. }
  cbn [app]. rewrite dropWhile_stop by done.
  assert (Htake : takeWhile (λ c, negb (isPathSeparator c))
                    (c0 :: rl ++ rev (list_ascii_of_string dirpart)) = c0 :: rl).
  { destruct Hd as [->|[d ->]].
    - cbn [list_ascii_of_string rev]. rewrite app_nil_r.
      by apply (takeWhile_all _ (c0 :: rl)).
    - rewrite list_ascii_app, rev_app_distr. cbn [list_ascii_of_string rev app].
      rewrite app_comm_cons.
      by apply (takeWhile_app_stop _ (c0 :: rl)). }
  rewrite Htake, <- Erl, rev_involutive.
  apply string_of_list_ascii_of_string.
Qed.

Lemma noSlash_app (s1 s2 : string) : noSlash s1 → noSlash s2 → noSlash (s1 ++ s2).
Proof. unfold noSlash. rewrite list_ascii_app. apply Forall_app_2. Qed.

Lemma uuidBytes_noSlash s : ∀ i, uuidBytes i s = true → noSlash s.
Proof.
  induction s as [|c s IH]; intros i; cbn; [by constructor|].
  intros [H0 Hs]%andb_true_iff. constructor; [|by apply (IH (S i))].
  apply uuidRuneOk_ascii in H0 as Hlt.
  unfold isPathSeparator. destruct (Ascii.eqb_spec c "/") as [->|]; [|done].
  unfold uuidRuneOk, isHexRune in H0. by destruct (isHyphenPos i).
Qed.

Lemma uuidShape_noSlash s : uuidShape s → noSlash s.
Proof.
  intros H%isUUIDLike_spec. unfold isUUIDLike in H.
  destruct (negb _); [done|]. rewrite uuidRange_bytes in H.
  by apply (uuidBytes_noSlash s 0).
Qed.

(** X6: a transcript stored as <directory>/<prefix><id>.jsonl, with an id
    of the canonical 8-4-4-4-12 shape and a prefix without a slash, gets
    that id back from its path. *)
Theorem extractSessionIDFromPath_roundtrip (d pre u : string) :
  uuidShape u → noSlash pre →
  extractSessionIDFromPath (d ++ "/" ++ pre ++ u ++ ".jsonl") = u.
Proof.
  intros Hu Hpre. unfold extractSessionIDFromPath.
  assert (Hname : noSlash (pre ++ u ++ ".jsonl")).
  { apply noSlash_app; [done|]. apply noSlash_app; [by apply uuidShape_noSlash|].
    repeat constructor. }
  assert (Hne : (pre ++ u ++ ".jsonl")%string ≠ "").
  { intros E. apply (f_equal String.length) in E.
    rewrite !string_length_app in E. cbn in E. lia. }
  replace (d ++ "/" ++ pre ++ u ++ ".jsonl")%string
    with ((d ++ "/") ++ (pre ++ u ++ ".jsonl"))%string
    by (rewrite string_app_assoc; done).
  rewrite (Base_name (d ++ "/") _ (or_intror (ex_intro _ d eq_refl)) Hne Hname).
  rewrite <- string_app_assoc, TrimSuffix_app.
  rewrite string_length_app. destruct Hu as [Hlen Hshape].
  rewrite Hlen.
  destruct (Nat.leb_spec 36 (String.length pre + 36)); [|lia].
  replace (String.length pre + 36 - 36)%nat with (String.length pre) by lia.
  rewrite sliceFrom_app.
  assert (isUUIDLike u = true) as -> by by apply isUUIDLike_spec.
  done.
Qed.

(** ** More on the tracker *)

Lemma Tracker_eq (t1 t2 : Tracker) :
  files t1 = files t2 → idleThreshold t1 = idleThreshold t2 →
  pollInterval t1 = pollInterval t2 → done t1 = done t2 → t1 = t2.
Proof. destruct t1, t2; cbn; by intros -> -> -> ->. Qed.

Section TrackerMore.
Context {Line Raw : Type} (lib : Lib Line Raw).
Implicit Types (w : Sweep Line) (t : Tracker) (evs : list (event Line)).

(** X7: in every execution from a new tracker, each entry of the map
    carries the path it is filed under. *)
Theorem entry_path_is_key (th poll : Duration) evs p tf :
  files (run (NewTracker th poll) evs) !! p = Some tf → path tf = p.
Proof.
  assert (Hinv : ∀ evs t,
            (∀ q tq, files t !! q = Some tq → path tq = q) →
            ∀ q tq, files (run t evs) !! q = Some tq → path tq = q).
  { clear. intros evs. induction evs as [|e evs IH]; intros t Ht; [done|].
    cbn. apply IH. intros q tq. destruct e as [n p|w]; cbn.
    - destruct (decide (q = p)) as [->|Hne].
      + rewrite Touch_same. intros [= <-].
        destruct (files t !! p) as [tf|] eqn:Hp; cbn; [by apply Ht|done].
      + rewrite Touch_other by done. apply Ht.
    - destruct (checkLocked_spec w t q) as [-> _].
      destruct (files t !! q) as [tf|] eqn:Hq; [|done]. cbn.
      unfold entryAfter. destruct (evicts (now w) tf); [done|].
      destruct (completes _ _ _ _ _); intros [= <-]; cbn; by apply Ht. }
  apply Hinv. intros q tq. cbn. by rewrite lookup_empty.
Qed.

(** X8: a sweep adds no entry, and removes none that is not reported: a
    path that was never completed stays tracked, with its last write,
    however long its process lives. *)
Theorem sweep_keeps_unreported w t p :
  (is_Some (files (checkLocked w t).1 !! p) → is_Some (files t !! p)) ∧
  (∀ tf, files t !! p = Some tf → reported tf = false →
     ∃ tf', files (checkLocked w t).1 !! p = Some tf' ∧
            lastWrite tf' = lastWrite tf ∧ path tf' = path tf).
Proof.
  destruct (checkLocked_spec w t p) as [-> _]. split.
  - destruct (files t !! p); [eauto|]. by intros [? [=]].
  - intros tf -> Hr. cbn. unfold entryAfter, evicts. rewrite Hr. cbn.
    destruct (completes _ _ _ _ _); eauto.
Qed.

(** X9: of two touches of one path only the later one shows, and touches
    of different paths commute. *)
Theorem Touch_compose (n1 n2 : Time) (p q : string) t :
  Touch n2 p (Touch n1 p t) = Touch n2 p t ∧
  (p ≠ q → Touch n1 p (Touch n2 q t) = Touch n2 q (Touch n1 p t)).
Proof.
  split.
  - apply Tracker_eq; try (unfold Touch; by repeat destruct (_ !! _)).
    apply map_eq. intros k. destruct (decide (k = p)) as [->|Hne].
    + rewrite !Touch_same. by destruct (files t !! p).
    + by rewrite !Touch_other.
  - intros Hpq.
    apply Tracker_eq; try (unfold Touch; by repeat destruct (_ !! _)).
    apply map_eq. intros k.
    destruct (decide (k = p)) as [->|Hp]; [|destruct (decide (k = q)) as [->|Hq]].
    + rewrite Touch_same, (Touch_other n2 q _ p) by done.
      rewrite (Touch_other n2 q _ p) by done. by rewrite Touch_same.
    + rewrite (Touch_other n1 p _ q) by done. rewrite !Touch_same.
      by rewrite (Touch_other n1 p _ q) by done.
    + by rewrite !Touch_other.
Qed.

Lemma checkLocked_rest w t :
  idleThreshold (checkLocked w t).1 = idleThreshold t ∧
  pollInterval (checkLocked w t).1 = pollInterval t ∧
  done (checkLocked w t).1 = done t.
Proof. unfold checkLocked. by destruct (foldl _ _ _). Qed.

(** X10: the order in which a sweep visits the map does not show in the
    tracker it leaves, and changes [readyPaths] only by a permutation. *)
Theorem sweep_order_irrelevant w w' t :
  now w = now w' → (∀ p, processCheck w p = processCheck w' p) →
  (checkLocked w t).1 = (checkLocked w' t).1 ∧
  readyPaths w t ≡ₚ readyPaths w' t.
Proof.
  intros Hn Hpc. split.
  - destruct (checkLocked_rest w t) as (H1 & H2 & H3).
    destruct (checkLocked_rest w' t) as (H1' & H2' & H3').
    apply Tracker_eq; [|congruence..].
    apply map_eq. intros p.
    destruct (checkLocked_spec w t p) as [-> _].
    destruct (checkLocked_spec w' t p) as [-> _].
    destruct (files t !! p) as [tf|]; [|done]. cbn.
    unfold entryAfter, completes. by rewrite Hn, Hpc.
  - apply (Permutation_count_occ String.string_dec). intros p.
    destruct (checkLocked_spec w t p) as [_ ->].
    destruct (checkLocked_spec w' t p) as [_ ->].
    destruct (files t !! p) as [tf|]; [|done].
    unfold completes. by rewrite Hn, Hpc.
Qed.

(** X11: [readyPaths] holds no path twice, and every path in it is left in
    the map marked reported at the time of the sweep, its last write
    unchanged. *)
Theorem readyPaths_marked w t :
  NoDup (readyPaths w t) ∧
  ∀ p, p ∈ readyPaths w t →
    ∃ tf, files t !! p = Some tf ∧
          files (checkLocked w t).1 !! p =
            Some {| path := path tf; lastWrite := lastWrite tf;
                    reported := true; reportedAt := now w |}.
Proof.
  split.
  - apply NoDup_ListNoDup, (NoDup_count_occ String.string_dec). intros p.
    destruct (checkLocked_spec w t p) as [_ ->].
    destruct (files t !! p) as [tf|]; [|lia].
    destruct (completes _ _ _ _ _); cbn; lia.
  - intros p Hin%list_elem_of_In.
    apply (count_occ_In String.string_dec) in Hin.
    destruct (checkLocked_spec w t p) as [-> Ho]. rewrite Ho in Hin.
    destruct (files t !! p) as [tf|]; [|lia]. exists tf. split; [done|].
    cbn. destruct (completes _ _ _ _ _) eqn:Ec; [|cbn in Hin; lia].
    unfold entryAfter, evicts. rewrite Ec.
    unfold completes in Ec. destruct (reported tf); [done|]. done.
Qed.

Lemma parseTranscript_has_id ro (fs : FS Line) p r :
  parseTranscript lib ro fs p = Some r → SessionID r ≠ "".
Proof.
  intros Hr. destruct (fs p) as [f|] eqn:Hf.
  - by destruct (parseTranscript_fields lib ro fs p f r Hf Hr) as (_ & ? & _).
  - unfold parseTranscript in Hr. by rewrite Hf in Hr.
Qed.

(** X12: the sessions a sweep hands to the callback come from its
    [readyPaths], in that order, at most one for each, and each has a
    session id. *)
Theorem callbacks_from_readyPaths w t :
  TranscriptPath <$> (check lib w t).2 `sublist_of` readyPaths w t ∧
  Forall (λ r, SessionID r ≠ "") (check lib w t).2.
Proof.
  destruct (check_locked lib w t) as [_ ->]. unfold callbacks.
  generalize (readyPaths w t). intros ready.
  induction ready as [|q ready [IH1 IH2]]; cbn; [by split; constructor|].
  destruct (parseTranscript lib (parseOrder w q) (disk w) q) as [r|] eqn:E; cbn.
  - rewrite (parseTranscript_path lib _ _ _ _ E). split.
    + by apply sublist_skip.
    + constructor; [|done].
      by apply (parseTranscript_has_id _ _ _ _ E).
  - split; [by apply sublist_cons|done].
Qed.
End TrackerMore.

(** ** The process check *)

Definition noHyphen (s : string) : Prop :=
  Forall (λ c, c ≠ "-"%char) (list_ascii_of_string s).

Lemma list_ascii_of_ReplaceAll s old new :
  list_ascii_of_string (ReplaceAll s old new)
  = replaceByte old new <$> list_ascii_of_string s.
Proof. unfold ReplaceAll. apply list_ascii_of_string_of_list_ascii. Qed.

(** X13: the project directory recovered from a transcript path is either
    empty or an existing directory, spelled as the slug with every hyphen
    turned into a slash, under a parent named "projects"; it never contains
    a hyphen. *)
Theorem projectDirFromTranscript_result (os : Procfs) (transcriptPath : string) :
  let d := projectDirFromTranscript os transcriptPath in
  d = "" ∨
  (d = ReplaceAll (Base (Dir transcriptPath)) "-" "/" ∧
   Base (Dir (Dir transcriptPath)) = "projects" ∧
   statIsDir os d = Some true ∧
   noHyphen d).
Proof.
  cbn. unfold projectDirFromTranscript.
  destruct (String.eqb_spec (Base (Dir (Dir transcriptPath))) "projects")
    as [Hp|]; cbn; [|by left].
  destruct (_ || _); [by left|].
  destruct (statIsDir os _) as [[]|] eqn:Hs; [|by left..].
  right. repeat split; try done.
  unfold noHyphen. rewrite list_ascii_of_ReplaceAll.
  apply Forall_fmap, Forall_forall. intros c _. cbn. unfold replaceByte.
  destruct (Ascii.eqb_spec c "-"); [done|]. done.
Qed.

Lemma fmap_id_iff {A} (f : A → A) (l : list A) :
  f <$> l = l ↔ Forall (λ x, f x = x) l.
Proof.
  induction l as [|x l IH]; cbn.
  - split; [constructor|done].
  - rewrite Forall_cons, <- IH. split.
    + by intros [= -> ->].
    + by intros [-> ->].
Qed.

(** X14: turning the hyphens of a slug into slashes gives back the
    directory it was made from exactly when that directory has no hyphen
    in its path. *)
Theorem slug_roundtrip (p : string) :
  ReplaceAll (pathToSlug p) "-" "/" = p ↔ noHyphen p.
Proof.
  unfold ReplaceAll, pathToSlug, noHyphen.
  rewrite list_ascii_of_string_of_list_ascii, <- list_fmap_compose.
  set (f := replaceByte "-" "/" ∘ (λ c, if Ascii.eqb c "/" then "-"%char else c)).
  assert (Hf : ∀ c, f c = c ↔ c ≠ "-"%char).
  { intros c. unfold f, replaceByte. cbn.
    destruct (Ascii.eqb_spec c "/") as [->|Hs]; [done|].
    destruct (Ascii.eqb_spec c "-") as [->|Hh]; [done|]. done. }
  split.
  - intros H. apply (f_equal list_ascii_of_string) in H.
    rewrite list_ascii_of_string_of_list_ascii in H.
    apply fmap_id_iff in H. eapply Forall_impl; [exact H|].
    intros c. apply Hf.
  - intros H. assert (f <$> list_ascii_of_string p = list_ascii_of_string p) as ->.
    { apply fmap_id_iff. eapply Forall_impl; [exact H|]. intros c. apply Hf. }
    apply string_of_list_ascii_of_string.
Qed.

(** A numbered directory of /proc whose command line names claude, and
    which runs in [projectDir] when one is given. *)
Definition claudeProcess (os : Procfs) (projectDir : string) (e : DirEntry)
  : Prop :=
  entryIsDir e = true ∧
  startsWithDigit (entryName e) = true ∧
  ∃ cmdline, readCmdline os (entryName e) = Some cmdline ∧
             isClaudeCmdline cmdline = true ∧
             (projectDir = "" ∨ readCwd os (entryName e) = Some projectDir).

Lemma procLoop_spec os projectDir entries :
  procLoop os projectDir entries = true ↔
  ∃ e, e ∈ entries ∧ claudeProcess os projectDir e.
Proof.
  induction entries as [|entry rest IH]; cbn [procLoop].
  { split; [done|]. intros (e & He & _). by apply elem_of_nil in He. }
  assert (Hrest : (∃ e, e ∈ rest ∧ claudeProcess os projectDir e) →
                  ∃ e, e ∈ entry :: rest ∧ claudeProcess os projectDir e).
  { intros (e & He & Hc). exists e. split; [by right|done]. }
  assert (Hhead : ¬ claudeProcess os projectDir entry →
                  (∃ e, e ∈ entry :: rest ∧ claudeProcess os projectDir e) →
                  ∃ e, e ∈ rest ∧ claudeProcess os projectDir e).
  { intros Hn (e & [->|He]%elem_of_cons & Hc); [done|eauto]. }
  unfold claudeProcess in Hhead at 1.
  destruct (entryIsDir entry) eqn:Ed; cbn.
  2: { rewrite IH. split; [done|]. apply Hhead. by intros [? _]. }
  destruct (startsWithDigit (entryName entry)) eqn:En; cbn.
  2: { rewrite IH. split; [done|]. apply Hhead. by intros (_ & ? & _). }
  destruct (readCmdline os (entryName entry)) as [cmdline|] eqn:Ec.
  2: { rewrite IH. split; [done|]. apply Hhead. by intros (_ & _ & ? & [=] & _). }
  destruct (isClaudeCmdline cmdline) eqn:Ei; cbn.
  2: { rewrite IH. split; [done|]. apply Hhead.
       intros (_ & _ & ? & [= <-] & ? & _). congruence. }
  destruct (String.eqb_spec projectDir "") as [->|Hpd].
  { split; [|done]. intros _. exists entry. split; [left|].
    repeat split; try done. exists cmdline. by repeat split; [..|left]. }
  destruct (readCwd os (entryName entry)) as [cwd|] eqn:Ew.
  2: { rewrite IH. split; [done|]. apply Hhead.
       intros (_ & _ & ? & _ & _ & [?|[=]]). done. }
  destruct (String.eqb_spec cwd projectDir) as [->|Hne].
  { split; [|done]. intros _. exists entry. split; [left|].
    repeat split; try done. exists cmdline. by repeat split; [..|right]. }
  rewrite IH. split; [done|]. apply Hhead.
  intros (_ & _ & ? & _ & _ & [?|[= ?]]); done.
Qed.

(** X15: the process check answers true exactly when /proc can be listed
    and holds a numbered directory whose command line has an argument
    with base name "claude" or starting with "claude-", and whose working
    directory is the project directory of the transcript, or any when no
    project directory was recovered. *)
Theorem isClaudeRunningForTranscript_spec (os : Procfs) (transcriptPath : string) :
  isClaudeRunningForTranscript os transcriptPath = true ↔
  ∃ entries e,
    readProc os = Some entries ∧ e ∈ entries ∧
    claudeProcess os (projectDirFromTranscript os transcriptPath) e.
Proof.
  unfold isClaudeRunningForTranscript.
  destruct (readProc os) as [entries|].
  - rewrite procLoop_spec. split.
    + intros (e & He & Hc). by exists entries, e.
    + intros (? & e & [= <-] & He & Hc). by exists e.
  - split; [done|]. by intros (? & ? & [=] & _).
Qed.

Lemma anyClaudeLoop_spec os entries :
  anyClaudeLoop os entries = procLoop os "" entries.
Proof.
  induction entries as [|entry rest IH]; cbn; [done|].
  rewrite IH. destruct (entryIsDir entry); cbn; [|done].
  destruct (startsWithDigit _); cbn; [|done].
  destruct (readCmdline os _) as [cmdline|]; [|done].
  by destruct (isClaudeCmdline cmdline).
Qed.

(** X16: the check for one transcript is never more permissive than the
    earlier check for any claude process, and is that check when no
    project directory is recovered from the path. *)
Theorem scoped_check_refines_global (os : Procfs) (transcriptPath : string) :
  (isClaudeRunningForTranscript os transcriptPath = true →
   isClaudeRunning os = true) ∧
  (projectDirFromTranscript os transcriptPath = "" →
   isClaudeRunningForTranscript os transcriptPath = isClaudeRunning os).
Proof.
  unfold isClaudeRunningForTranscript, isClaudeRunning.
  destruct (readProc os) as [entries|]; [|done].
  rewrite anyClaudeLoop_spec. split.
  - rewrite !procLoop_spec. intros (e & He & Hd & Hn & cmd & Hc & Hi & _).
    exists e. split; [done|]. repeat split; try done.
    exists cmd. by repeat split; [..|left].
  - by intros ->.
Qed.

(** ** The watcher *)

Lemma handleEvent_touches_suffix stat (ev : fsnotify.Event) p :
  handleEvent stat ev = TouchFile p →
  p = fsnotify.Name ev ∧ HasSuffix (fsnotify.Name ev) ".jsonl" = true.
Proof.
  unfold handleEvent. destruct (if negb _ then _ else false); [done|].
  destruct (HasSuffix _ _); cbn; [|done].
  destruct (negb _); [|done]. by intros [= <-].
Qed.

(** X17: an event reaches the tracker exactly when its name ends in
    ".jsonl", it has the Write or the Create bit, and it is not the
    creation of a directory; the path touched is the event's name. *)
Theorem handleEvent_touches stat (ev : fsnotify.Event) p :
  handleEvent stat ev = TouchFile p ↔
  p = fsnotify.Name ev ∧
  HasSuffix (fsnotify.Name ev) ".jsonl" = true ∧
  Z.land (fsnotify.Op ev) (Z.lor fsnotify.Write fsnotify.Create) ≠ 0%Z ∧
  ¬ (Z.land (fsnotify.Op ev) fsnotify.Create ≠ 0%Z ∧
     stat (fsnotify.Name ev) = Some true).
Proof.
  unfold handleEvent.
  destruct (Z.eqb_spec (Z.land (fsnotify.Op ev) fsnotify.Create) 0) as [Hc|Hc];
    cbn [negb].
  - destruct (HasSuffix _ _); cbn; [|by split; [|intros (_ & ? & _)]].
    destruct (Z.eqb_spec (Z.land (fsnotify.Op ev)
                (Z.lor fsnotify.Write fsnotify.Create)) 0) as [Hw|Hw]; cbn.
    + split; [done|]. by intros (_ & _ & ? & _).
    + split; [intros [= <-]|by intros (-> & _)].
      repeat split; try done. by intros [? _].
  - destruct (stat (fsnotify.Name ev)) as [[]|] eqn:Hs.
    + split; [done|]. intros (_ & _ & _ & Hn). destruct Hn. by split.
    + destruct (HasSuffix _ _); cbn; [|by split; [|intros (_ & ? & _)]].
      destruct (Z.eqb_spec (Z.land (fsnotify.Op ev)
                  (Z.lor fsnotify.Write fsnotify.Create)) 0) as [Hw|Hw]; cbn.
      * split; [done|]. by intros (_ & _ & ? & _).
      * split; [intros [= <-]|by intros (-> & _)].
        repeat split; try done. by intros [_ [=]].
    + destruct (HasSuffix _ _); cbn; [|by split; [|intros (_ & ? & _)]].
      destruct (Z.eqb_spec (Z.land (fsnotify.Op ev)
                  (Z.lor fsnotify.Write fsnotify.Create)) 0) as [Hw|Hw]; cbn.
      * split; [done|]. by intros (_ & _ & ? & _).
      * split; [intros [= <-]|by intros (-> & _)].
        repeat split; try done. by intros [_ [=]].
Qed.

(** What reaches a tracker that sits behind the watcher: file events and
    the ticks of its own loop. *)
Inductive sysEvent (Line : Type) :=
| FsEvent (stat : string → option bool) (now : Time) (ev : fsnotify.Event)
| Tick (w : Sweep Line).
Arguments FsEvent {Line}.
Arguments Tick {Line}.

Definition sysStep {Line} (t : Tracker) (e : sysEvent Line) : Tracker :=
  match e with
  | FsEvent stat now ev => deliver stat now ev t
  | Tick w => (checkLocked w t).1
  end.

Definition sysRun {Line} (t : Tracker) (evs : list (sysEvent Line)) : Tracker :=
  foldl sysStep t evs.

(** X18: behind the watcher the tracker only ever tracks paths that end in
    ".jsonl". *)
Theorem tracked_paths_are_jsonl {Line} (th poll : Duration)
    (evs : list (sysEvent Line)) p :
  is_Some (files (sysRun (NewTracker th poll) evs) !! p) →
  HasSuffix p ".jsonl" = true.
Proof.
  assert (Hinv : ∀ (evs : list (sysEvent Line)) t,
            (∀ q, is_Some (files t !! q) → HasSuffix q ".jsonl" = true) →
            ∀ q, is_Some (files (sysRun t evs) !! q) → HasSuffix q ".jsonl" = true).
  { clear. intros evs. induction evs as [|e evs IH]; intros t Ht; [done|].
    cbn. apply IH. intros q. destruct e as [stat n ev|w]; cbn.
    - unfold deliver. destruct (handleEvent stat ev) as [|p'|] eqn:E;
        [apply Ht| |apply Ht].
      apply handleEvent_touches_suffix in E as [-> Hs].
      destruct (decide (q = fsnotify.Name ev)) as [->|Hne]; [done|].
      rewrite Touch_other by done. apply Ht.
    - intros Hq. apply Ht.
      destruct (checkLocked_spec w t q) as [Hl _]. rewrite Hl in Hq.
      destruct (files t !! q); [eauto|]. by destruct Hq as [? [=]]. }
  apply Hinv. intros q. cbn. rewrite lookup_empty. by intros [? [=]].
Qed.

(** ** Paths made of names *)

(** A path element that [filepath.Clean] keeps as it is. *)
Definition realName (s : string) : Prop :=
  s ≠ "" ∧ noSlash s ∧ s ≠ "." ∧ s ≠ "..".

Fixpoint joinPath (names : list string) : string :=
  match names with
  | [] => ""
  | [n] => n
  | n :: rest => n ++ "/" ++ joinPath rest
  end.

(** The absolute path with the elements [names]. *)
Definition absolute (names : list string) : string := "/" ++ joinPath names.

Definition realElem (e : list ascii) : Prop :=
  e ≠ [] ∧ Forall (λ c, isPathSeparator c = false) e ∧
  isDot e = false ∧ isDotDot e = false.

Lemma isDot_true e : isDot e = true → e = ["."%char].
Proof.
  destruct e as [|c [|c' e]]; [done| |];
    destruct c as [[] [] [] [] [] [] [] []]; done.
Qed.

Lemma isDotDot_true e : isDotDot e = true → e = ["."%char; "."%char].
Proof.
  destruct e as [|c [|c' [|c'' e]]]; [done|..];
    destruct c as [[] [] [] [] [] [] [] []]; try done;
    destruct c' as [[] [] [] [] [] [] [] []]; done.
Qed.

Lemma realName_elem s : realName s → realElem (list_ascii_of_string s).
Proof.
  intros (Hne & Hns & Hd & Hdd). repeat split; [|done|..].
  - by destruct s.
  - destruct (isDot _) eqn:E; [|done]. apply isDot_true in E.
    apply (f_equal string_of_list_ascii) in E.
    by rewrite string_of_list_ascii_of_string in E.
  - destruct (isDotDot _) eqn:E; [|done]. apply isDotDot_true in E.
    apply (f_equal string_of_list_ascii) in E.
    by rewrite string_of_list_ascii_of_string in E.
Qed.

Lemma joinBytes_cons sep e es :
  es ≠ [] → joinBytes sep (e :: es) = e ++ sep :: joinBytes sep es.
Proof. by destruct es. Qed.

Lemma joinBytes_snoc sep es e :
  es ≠ [] → joinBytes sep (es ++ [e]) = joinBytes sep es ++ sep :: e.
Proof.
  induction es as [|e0 es IH]; [done|]. intros _.
  destruct es as [|e1 es]; [done|].
  change ((e0 :: e1 :: es) ++ [e]) with (e0 :: ((e1 :: es) ++ [e])).
  rewrite joinBytes_cons by done. rewrite IH by done.
  rewrite (joinBytes_cons sep e0 (e1 :: es)) by done.
  by rewrite <- app_assoc.
Qed.

Lemma list_ascii_joinPath names :
  list_ascii_of_string (joinPath names)
  = joinBytes "/" (list_ascii_of_string <$> names).
Proof.
  induction names as [|n names IH]; [done|].
  destruct names as [|n' names]; [done|].
  change (joinPath (n :: n' :: names))
    with (n ++ "/" ++ joinPath (n' :: names))%string.
  rewrite !list_ascii_app, IH. done.
Qed.

Lemma splitBytes_piece e tail :
  Forall (λ c, isPathSeparator c = false) e →
  splitBytes "/" (e ++ "/"%char :: tail) = e :: splitBytes "/" tail.
Proof.
  induction 1 as [|c e Hc _ IH]; cbn [app splitBytes].
  - done.
  - unfold isPathSeparator in Hc. rewrite Hc, IH. done.
Qed.

Lemma splitBytes_join es tail :
  es ≠ [] → Forall (Forall (λ c, isPathSeparator c = false)) es →
  splitBytes "/" (joinBytes "/" es ++ "/"%char :: tail)
  = es ++ splitBytes "/" tail.
Proof.
  induction es as [|e es IH]; [done|]. intros _ [He Hes]%Forall_cons.
  destruct es as [|e' es].
  - cbn [joinBytes]. by rewrite splitBytes_piece.
  - rewrite joinBytes_cons by done. rewrite <- app_assoc. cbn [app].
    rewrite splitBytes_piece by done. by rewrite IH.
Qed.

Lemma cleanStep_real rooted es : ∀ stack,
  Forall realElem es →
  foldl (cleanStep rooted) stack es = rev es ++ stack.
Proof.
  induction es as [|e es IH]; intros stack; [done|].
  intros [(Hne & _ & Hd & Hdd) Hes]%Forall_cons. cbn [foldl].
  rewrite IH by done. unfold cleanStep.
  destruct e as [|c e]; [done|]. rewrite Hd, Hdd.
  cbn [rev]. by rewrite <- app_assoc.
Qed.

(** Cleaning an absolute path of real names followed by a slash drops the
    slash. *)
Lemma cleanBytes_absolute es :
  es ≠ [] → Forall realElem es →
  cleanBytes ("/"%char :: joinBytes "/" es ++ ["/"%char])
  = "/"%char :: joinBytes "/" es.
Proof.
  intros Hne Hes. unfold cleanBytes.
  change (isPathSeparator "/"%char) with true. cbv iota.
  change (splitBytes "/" ("/"%char :: joinBytes "/" es ++ ["/"%char]))
    with ([] :: splitBytes "/" (joinBytes "/" es ++ ["/"%char])).
  rewrite splitBytes_join; [|done|].
  2: { eapply Forall_impl; [exact Hes|]. by intros e (_ & ? & _). }
  cbn [splitBytes foldl cleanStep].
  rewrite foldl_app, (cleanStep_real true es [] Hes). cbn [foldl cleanStep].
  rewrite app_nil_r, rev_involutive. done.
Qed.

Lemma absolute_snoc names x :
  absolute (names ++ [x]) =
  ((if decide (names = []) then "/" else absolute names ++ "/") ++ x)%string.
Proof.
  unfold absolute. destruct (decide (names = [])) as [->|Hne]; [done|].
  rewrite !string_app_assoc. f_equal.
  rewrite <- (string_of_list_ascii_of_string (joinPath (names ++ [x]))).
  rewrite <- (string_of_list_ascii_of_string (joinPath names ++ "/" ++ x)).
  f_equal.
  rewrite list_ascii_joinPath, fmap_app.
  change (list_ascii_of_string <$> [x]) with [list_ascii_of_string x].
  rewrite joinBytes_snoc by (by destruct names).
  rewrite !list_ascii_app, list_ascii_joinPath. done.
Qed.

Lemma Base_absolute names x : realName x → Base (absolute (names ++ [x])) = x.
Proof.
  intros (Hne & Hns & _). rewrite absolute_snoc.
  apply Base_name; [right|done..].
  destruct (decide (names = [])); [by exists ""|by eexists].
Qed.

Lemma Dir_absolute names file :
  names ≠ [] → Forall realName names → realName file →
  Dir (absolute (names ++ [file])) = absolute names.
Proof.
  intros Hne Hnames (_ & Hfile & _). unfold Dir, absolute.
  rewrite !append_cons, !append_nil. cbn [list_ascii_of_string].
  rewrite list_ascii_joinPath, fmap_app.
  change (list_ascii_of_string <$> [file]) with [list_ascii_of_string file].
  rewrite joinBytes_snoc by (by destruct names).
  set (es := list_ascii_of_string <$> names).
  set (lf := list_ascii_of_string file).
  assert (Hrev : rev ("/"%char :: joinBytes "/" es ++ "/"%char :: lf)
                 = rev lf ++ "/"%char :: rev ("/"%char :: joinBytes "/" es)).
  { change ("/"%char :: joinBytes "/" es ++ "/"%char :: lf)
      with (("/"%char :: joinBytes "/" es) ++ "/"%char :: lf).
    rewrite rev_app_distr. cbn [rev]. by rewrite <- app_assoc. }
  rewrite Hrev.
  assert (Hdrop : ∀ l tail,
            Forall (λ c, isPathSeparator c = false) l →
            dropWhile (λ c, negb (isPathSeparator c)) (l ++ "/"%char :: tail)
            = "/"%char :: tail).
  { clear. intros l tail. induction 1 as [|c l Hc _ IH]; cbn; [done|].
    by rewrite Hc. }
  rewrite Hdrop.
  2: { apply Forall_forall. intros c Hc%list_elem_of_In%in_rev%list_elem_of_In.
       unfold noSlash in Hfile. rewrite Forall_forall in Hfile. by apply Hfile. }
  cbn [rev]. rewrite rev_app_distr, rev_involutive. cbn [rev app].
  rewrite cleanBytes_absolute.
  - cbn [string_of_list_ascii]. f_equal. unfold es.
    by rewrite <- list_ascii_joinPath, string_of_list_ascii_of_string.
  - unfold es. by destruct names.
  - unfold es. apply Forall_fmap. eapply Forall_impl; [exact Hnames|].
    intros s. apply realName_elem.
Qed.

Lemma slug_decode (p : string) : noHyphen p → ReplaceAll (pathToSlug p) "-" "/" = p.
Proof.
  intros H. unfold ReplaceAll, pathToSlug.
  rewrite list_ascii_of_string_of_list_ascii, <- list_fmap_compose.
  rewrite (proj2 (fmap_id_iff _ _)); [apply string_of_list_ascii_of_string|].
  eapply Forall_impl; [exact H|]. intros c Hc. cbn. unfold replaceByte.
  destruct (Ascii.eqb_spec c "/") as [->|Hs]; [done|].
  destruct (Ascii.eqb_spec c "-") as [->|Hh]; done.
Qed.

Lemma pathToSlug_absolute names :
  ∃ rest, pathToSlug (absolute names) = String "-" rest ∧
          noSlash (pathToSlug (absolute names)).
Proof.
  unfold pathToSlug, absolute. rewrite append_cons, append_nil.
  cbn [list_ascii_of_string fmap list_fmap string_of_list_ascii].
  eexists. split; [reflexivity|].
  unfold noSlash. cbn [list_ascii_of_string]. constructor; [done|].
  rewrite list_ascii_of_string_of_list_ascii.
  apply Forall_fmap, Forall_forall. intros c _. cbn.
  unfold isPathSeparator. destruct (Ascii.eqb_spec c "/") as [->|Hc]; [done|].
  by destruct (Ascii.eqb_spec c "/").
Qed.

Lemma noHyphen_absolute names : Forall noHyphen names → noHyphen (absolute names).
Proof.
  intros H. unfold noHyphen, absolute. rewrite append_cons, append_nil.
  cbn [list_ascii_of_string]. constructor; [done|].
  rewrite list_ascii_joinPath.
  induction H as [|n names Hn Hnames IH]; [constructor|].
  destruct names as [|n' names]; [done|].
  change (list_ascii_of_string <$> n :: n' :: names)
    with (list_ascii_of_string n :: (list_ascii_of_string <$> n' :: names)).
  rewrite joinBytes_cons by done.
  apply Forall_app_2; [done|]. constructor; [done|]. apply IH.
Qed.

(** X19: a transcript stored as <root>/projects/<slug>/<file>, where the
    slug is made from an existing project directory whose path has no
    hyphen, is checked against exactly that directory. *)
Theorem projectDir_decodes (os : Procfs) (root proj : list string) (file : string) :
  Forall realName root → Forall realName proj → Forall noHyphen proj →
  realName file →
  statIsDir os (absolute proj) = Some true →
  projectDirFromTranscript os
    (absolute (root ++ ["projects"; pathToSlug (absolute proj); file]))
  = absolute proj.
Proof.
  intros Hroot Hproj Hhy Hfile Hstat.
  destruct (pathToSlug_absolute proj) as (rest & Hslug & Hns).
  set (slug := pathToSlug (absolute proj)) in *.
  assert (Hreal : realName slug).
  { repeat split; [by rewrite Hslug|done|rewrite Hslug; done..]. }
  assert (Hprojects : realName "projects").
  { split; [done|]. split; [|done].
    unfold noSlash. cbn [list_ascii_of_string].
    repeat first [apply Forall_nil_2 | apply Forall_cons_2; [done|]]. }
  unfold projectDirFromTranscript.
  replace (root ++ ["projects"; slug; file])
    with ((root ++ ["projects"; slug]) ++ [file]) by by rewrite <- app_assoc.
  rewrite Dir_absolute; [|by destruct root| |done].
  2: { apply Forall_app_2; [done|].
       repeat first [apply Forall_nil_2 | apply Forall_cons_2; [done|]]. }
  replace (root ++ ["projects"; slug])
    with ((root ++ ["projects"]) ++ [slug]) by by rewrite <- app_assoc.
  rewrite Dir_absolute; [|by destruct root| |done].
  2: { apply Forall_app_2; [done|].
       repeat first [apply Forall_nil_2 | apply Forall_cons_2; [done|]]. }
  rewrite !Base_absolute by done. cbn [String.eqb Ascii.eqb Bool.eqb negb].
  rewrite Hslug at 1 2. cbn [String.eqb Ascii.eqb Bool.eqb orb].
  unfold slug. rewrite slug_decode by by apply noHyphen_absolute.
  by rewrite Hstat.
Qed.

(** ** Where a completed session goes *)

(** X20: a parsed session is published as failed exactly when no line of
    its transcript is tagged as an assistant message, and as completed
    exactly when some line is. *)
Theorem failed_iff_no_assistant {Line Raw} (lib : Lib Line Raw)
    ro (fs : FS Line) path f r :
  fs path = Some f →
  parseTranscript lib ro fs path = Some r →
  (onCompleteRoute r = (subjectFailed, "cc.session.failed") ↔
     ∀ e, e ∈ entries lib f → jsonlLine.Type_ e ≠ "assistant") ∧
  (onCompleteRoute r = (subjectCompleted, "cc.session.completed") ↔
     ∃ e, e ∈ entries lib f ∧ jsonlLine.Type_ e = "assistant").
Proof.
  intros Hf Hr. unfold onCompleteRoute.
  rewrite (exitCode_spec lib ro fs path f r Hf Hr).
  pose proof (existsb_taggedAssistant (entries lib f)) as Hex.
  destruct (existsb taggedAssistant (entries lib f)); cbn.
  - split.
    + split; [done|]. intros H. destruct (proj1 Hex eq_refl) as (e & He & Ht).
      by destruct (H e He).
    + split; [|done]. intros _. by apply Hex.
  - split.
    + split; [|done]. intros _ e He Ht.
      assert (false = true); [|done]. apply Hex. eauto.
    + split; [done|]. intros H. by apply Hex in H.
Qed.

(** ** Concrete inputs for the properties above *)

Module More.
(** /proc with one claude process, running in /home/mike/Warren. *)
Definition proc : Procfs := {|
  readProc := Some [
    {| entryName := "1"; entryIsDir := true |};
    {| entryName := "self"; entryIsDir := true |};
    {| entryName := "4242"; entryIsDir := true |};
    {| entryName := "uptime"; entryIsDir := false |}];
  readCmdline := λ name,
    if String.eqb name "1" then Some ("/sbin/init" ++ String "000" "")%string
    else if String.eqb name "4242"
    then Some ("/usr/local/bin/claude"
               ++ String "000" ("--print" ++ String "000" ""))%string
    else None;
  readCwd := λ name,
    if String.eqb name "4242" then Some "/home/mike/Warren"
    else if String.eqb name "1" then Some "/" else None;
  statIsDir := λ p,
    if String.eqb p "/home/mike/Warren" || String.eqb p "/home/mike/Other"
    then Some true else None
|}.

Definition root : list string := ["home"; "mike"; ".claude"].
Definition warren : list string := ["home"; "mike"; "Warren"].

(** The transcript with a [sessionId] whose file is called after nothing. *)
Definition named : File jline :=
  Examples.file [Examples.summary "S1" "/work" "2026-02-14T10:00:00Z"].

(** [Examples.noID] with junk between its lines, and with a line more. *)
Definition noisy : File jline :=
  Examples.file [LineEmpty; Examples.userMessage "2026-02-14T10:00:00Z";
                 LineInvalid].
Definition longer : File jline :=
  Examples.file [Examples.userMessage "2026-02-14T10:00:00Z";
                 Examples.assistantText "2026-02-14T10:06:00Z"].

(** A tracker with two paths, both idle. *)
Definition two : Tracker :=
  Touch Life.T0 "/p/b.jsonl" (Touch Life.T0 "/p/a.jsonl" Life.fresh).
Definition backward : Sweep jline :=
  {| now := now Life.due; processCheck := processCheck Life.due;
     filesOrder := GoJSON.descending; disk := disk Life.due;
     parseOrder := parseOrder Life.due |}.

Definition written (name : string) : sysEvent jline :=
  FsEvent (λ _, Some false) Life.T0
    {| fsnotify.Name := name; fsnotify.Op := fsnotify.Write |}.
End More.

Ltac solve_realName :=
  split; [done|]; split; [|done];
  unfold noSlash; cbn [list_ascii_of_string];
  repeat first [apply Forall_nil_2 | apply Forall_cons_2; [done|]].

Ltac solve_Forall tac :=
  repeat first [apply Forall_nil_2 | apply Forall_cons_2; [tac|]].

Example processCheck_examples :
  isClaudeRunningForTranscript More.proc
    "/home/mike/.claude/projects/-home-mike-Warren/s.jsonl" = true ∧
  isClaudeRunningForTranscript More.proc
    "/home/mike/.claude/projects/-home-mike-Other/s.jsonl" = false ∧
  projectDirFromTranscript More.proc
    "/home/mike/.claude/projects/-home-mike-my-app/s.jsonl" = "" ∧
  isClaudeRunningForTranscript More.proc
    "/home/mike/.claude/projects/-home-mike-my-app/s.jsonl" = true ∧
  projectDirFromTranscript More.proc "/some/random/path/session.jsonl" = "" ∧
  isClaudeRunning More.proc = true.
Proof. repeat split; vm_compute; reflexivity. Qed.

Lemma sessionID_from_field_witness :
  ∃ r, parseTranscript GoJSON.lib GoJSON.ascending
         (Examples.disk1 "/tmp/short.jsonl" More.named) "/tmp/short.jsonl" = Some r ∧
       SessionID r = "S1".
Proof.
  refine (sessionID_from_field GoJSON.lib GoJSON.ascending
            (Examples.disk1 "/tmp/short.jsonl" More.named) "/tmp/short.jsonl"
            More.named [] (jsonlLine.Build "summary" "S1" "2026-02-14T10:00:00Z" None "/work")
            [] eq_refl _ _ _).
  - vm_compute. reflexivity.
  - constructor.
  - discriminate.
Defined.

Lemma workingDir_first_cwd_witness :
  ∃ r, parseTranscript GoJSON.lib GoJSON.ascending
         (Examples.disk1 "/t/s.jsonl" Examples.basic) "/t/s.jsonl" = Some r ∧
       (Forall (λ e, jsonlLine.CWD e = "") (entries GoJSON.lib Examples.basic) →
        WorkingDir r = "").
Proof.
  eexists. split; [exact parse_basic|].
  exact (proj2 (workingDir_first_cwd GoJSON.lib GoJSON.ascending
           (Examples.disk1 "/t/s.jsonl" Examples.basic) "/t/s.jsonl"
           Examples.basic _ eq_refl parse_basic)).
Defined.

Lemma filesChanged_distinct_nonempty_witness :
  NoDup ["/work/a.go"; "/work/b.go"] ∧ "" ∉ ["/work/a.go"; "/work/b.go"].
Proof.
  exact (filesChanged_distinct_nonempty GoJSON.lib GoJSON.ascending
           (Examples.disk1 "/t/s.jsonl" Examples.basic) "/t/s.jsonl" _ parse_basic).
Defined.

Lemma undecodable_lines_ignored_witness :
  parseTranscript GoJSON.lib GoJSON.ascending
    (Examples.disk1 Examples.uuidPath Examples.noID) Examples.uuidPath
  = parseTranscript GoJSON.lib GoJSON.ascending
      (Examples.disk1 Examples.uuidPath More.noisy) Examples.uuidPath.
Proof.
  refine (undecodable_lines_ignored GoJSON.lib GoJSON.ascending
            (Examples.disk1 Examples.uuidPath More.noisy)
            (Examples.disk1 Examples.uuidPath Examples.noID)
            Examples.uuidPath More.noisy Examples.noID eq_refl eq_refl _).
  vm_compute. reflexivity.
Defined.

Lemma append_keeps_witness :
  ∃ r', parseTranscript GoJSON.lib GoJSON.descending
          (Examples.disk1 Examples.uuidPath More.longer) Examples.uuidPath
        = Some r'.
Proof.
  destruct (append_keeps GoJSON.lib GoJSON.ascending GoJSON.descending
              (Examples.disk1 Examples.uuidPath Examples.noID)
              (Examples.disk1 Examples.uuidPath More.longer)
              Examples.uuidPath Examples.noID More.longer
              [Examples.assistantText "2026-02-14T10:06:00Z"]
              {| SessionID := "abcdef01-2345-6789-abcd-ef0123456789";
                 TranscriptPath := Examples.uuidPath; FilesChanged := [];
                 WorkingDir := ""; DurationMs := 0; ExitCode := 1 |}
              eq_refl eq_refl eq_refl)
    as (r' & Hr' & _).
  - vm_compute. reflexivity.
  - exists r'. exact Hr'.
Defined.

Lemma extractSessionIDFromPath_roundtrip_witness :
  extractSessionIDFromPath
    ("/home/mike/.claude/projects/-home-mike" ++ "/" ++ "agent-"
       ++ "cfa3335c-ea38-4cf8-a1f2-9e3cf9789708" ++ ".jsonl")
  = "cfa3335c-ea38-4cf8-a1f2-9e3cf9789708".
Proof.
  apply extractSessionIDFromPath_roundtrip.
  - apply isUUIDLike_spec. reflexivity.
  - unfold noSlash. cbn [list_ascii_of_string]. solve_Forall ltac:(done).
Defined.

Lemma entry_path_is_key_witness : path Life.reported1 = Life.p.
Proof.
  refine (entry_path_is_key (Line:=jline) (10 * Second) (15 * Second)
            Life.history Life.p Life.reported1 _).
  vm_compute. reflexivity.
Defined.

Lemma sweep_order_irrelevant_witness :
  (checkLocked Life.due More.two).1 = (checkLocked More.backward More.two).1 ∧
  readyPaths Life.due More.two ≡ₚ readyPaths More.backward More.two.
Proof.
  apply sweep_order_irrelevant; [reflexivity|]. intros p. reflexivity.
Defined.

Lemma tracked_paths_are_jsonl_witness : HasSuffix "/p/a.jsonl" ".jsonl" = true.
Proof.
  refine (tracked_paths_are_jsonl (Line:=jline) (10 * Second) (15 * Second)
            [More.written "/p/notes.txt"; More.written "/p/a.jsonl"]
            "/p/a.jsonl" _).
  vm_compute. eexists. reflexivity.
Defined.

Lemma projectDir_decodes_witness :
  projectDirFromTranscript More.proc
    (absolute (More.root ++
       ["projects"; pathToSlug (absolute More.warren); "s.jsonl"]))
  = absolute More.warren.
Proof.
  apply projectDir_decodes.
  - solve_Forall ltac:(solve_realName).
  - solve_Forall ltac:(solve_realName).
  - solve_Forall ltac:(unfold noHyphen; cbn [list_ascii_of_string];
                       solve_Forall ltac:(done)).
  - solve_realName.
  - reflexivity.
Defined.

Lemma failed_iff_no_assistant_witness :
  ∃ r, parseTranscript GoJSON.lib GoJSON.ascending
         (Examples.disk1 "/t/s.jsonl" Examples.untagged) "/t/s.jsonl" = Some r ∧
       FilesChanged r = ["/work/a.go"] ∧
       onCompleteRoute r = (subjectFailed, "cc.session.failed").
Proof.
  eexists. split; [vm_compute; reflexivity|]. split; [reflexivity|].
  refine (proj2 (proj1 (failed_iff_no_assistant GoJSON.lib GoJSON.ascending
            (Examples.disk1 "/t/s.jsonl" Examples.untagged) "/t/s.jsonl"
            Examples.untagged _ eq_refl _)) _).
  - vm_compute. reflexivity.
  - intros e He. vm_compute in He.
    apply elem_of_cons in He as [->|He]; [discriminate|].
    apply list_elem_of_singleton in He as ->. discriminate.
Defined.

(** ** When the file name yields no id *)

Lemma Base_nonempty path : Base path ≠ "".
Proof.
  unfold Base. destruct (String.eqb path ""); [done|].
  destruct (takeWhile _ _) as [|c l] eqn:E; [done|].
  intros H. apply (f_equal list_ascii_of_string) in H.
  rewrite list_ascii_of_string_of_list_ascii in H.
  apply (f_equal (@rev _)) in H. rewrite rev_involutive in H. done.
Qed.

Lemma substring_full_length (n : nat) (s : string) :
  n = String.length s → substring 0 n s = s.
Proof. intros ->. apply substring_all. Qed.

Lemma substring_empty_prefix (n : nat) (s : string) :
  substring 0 n s = "" → n = 0%nat ∨ s = "".
Proof. destruct n, s; cbn; auto; discriminate. Qed.

Lemma TrimSuffix_empty (s suffix : string) :
  TrimSuffix s suffix = "" ↔ s = "" ∨ s = suffix.
Proof.
  unfold TrimSuffix, HasSuffix.
  destruct (Nat.leb_spec (String.length suffix) (String.length s)) as [Hle|Hlt];
    cbn.
  - destruct (String.eqb_spec
                (substring (String.length s - String.length suffix)
                   (String.length suffix) s) suffix) as [E|E].
    + split.
      * intros [H|H]%substring_empty_prefix; [|by left].
        right. assert (Hl : String.length s = String.length suffix) by lia.
        rewrite H in E. rewrite <- E. symmetry.
        by apply substring_full_length.
      * intros [->| ->]; [by destruct (String.length suffix)|].
        rewrite Nat.sub_diag. by destruct suffix.
    + split; [by left|]. intros [->| ->]; [done|].
      rewrite Nat.sub_diag, substring_all in E. done.
  - split; [by left|]. intros [->| ->]; [done|lia].
Qed.

(** X21: for a file that can be opened, the result is absent in one case
    only: no line carries a non-empty [sessionId] and the file is named
    exactly ".jsonl". *)
Theorem absent_only_for_dot_jsonl {Line Raw} (lib : Lib Line Raw)
    ro (fs : FS Line) path f :
  fs path = Some f →
  (parseTranscript lib ro fs path = None ↔
   Forall (λ e, jsonlLine.SessionID e = "") (entries lib f) ∧
   Base path = ".jsonl").
Proof.
  intros Hf. rewrite (parseTranscript_open lib ro fs path f Hf). cbn zeta.
  rewrite entries_no_sessionID.
  assert (Hx : extractSessionIDFromPath path = "" ↔ Base path = ".jsonl").
  { assert (Hbase : TrimSuffix (Base path) ".jsonl" = "" ↔ Base path = ".jsonl").
    { rewrite TrimSuffix_empty. split; [|by right].
      intros [E|E]; [|done]. by destruct (Base_nonempty path). }
    unfold extractSessionIDFromPath.
    destruct (Nat.leb_spec 36 (String.length (TrimSuffix (Base path) ".jsonl")))
      as [Hle|Hlt]; [|done].
    destruct (isUUIDLike _) eqn:Eu; [|done].
    apply isUUIDLike_spec in Eu. split.
    - intros E. destruct (uuidShape_nonempty _ Eu E).
    - intros E. apply Hbase in E. rewrite E in Hle. cbn in Hle. lia. }
  destruct (String.eqb_spec
              (firstNonEmpty (jsonlLine.SessionID <$> entries lib f)) "") as [E|E].
  - destruct (String.eqb_spec (extractSessionIDFromPath path) "") as [E'|E'].
    + split; [|done]. intros _. split; [done|]. by apply Hx.
    + split; [done|]. intros [_ H]. by apply Hx in H.
  - destruct (String.eqb_spec
                (firstNonEmpty (jsonlLine.SessionID <$> entries lib f)) "");
      [done|]. split; [done|]. by intros [? _].
Qed.

Lemma absent_only_for_dot_jsonl_witness :
  parseTranscript GoJSON.lib GoJSON.ascending
    (Examples.disk1 "/tmp/.jsonl" Examples.noID) "/tmp/.jsonl" = None.
Proof.
  apply (absent_only_for_dot_jsonl GoJSON.lib GoJSON.ascending
           (Examples.disk1 "/tmp/.jsonl" Examples.noID) "/tmp/.jsonl"
           Examples.noID eq_refl).
  split; [|reflexivity]. vm_compute. repeat constructor.
Defined.

(** ** The last write *)

Section LastWrite.
Context {Line : Type}.
Implicit Types (w : Sweep Line) (t : Tracker) (evs : list (event Line)).

Lemma lastWrite_kept p evs : ∀ t tf tf',
  noTouch p evs →
  files t !! p = Some tf →
  files (run t evs) !! p = Some tf' →
  lastWrite tf' = lastWrite tf.
Proof.
  induction evs as [|e evs IH]; intros t tf tf' Hnt Hp Hp'.
  { cbn in Hp'. congruence. }
  apply noTouch_cons in Hnt as [Hnt He]. cbn in Hp'.
  fold (run (step t e) evs) in Hp'.
  destruct (files (step t e) !! p) as [tf1|] eqn:H1.
  - rewrite (IH (step t e) tf1 tf' Hnt H1 Hp').
    destruct e as [n q|w]; cbn in H1.
    + rewrite Touch_other in H1; [congruence|]. intros ->. by apply (He n).
    + destruct (checkLocked_spec w t p) as [Hl _]. rewrite Hl, Hp in H1.
      cbn in H1. unfold entryAfter in H1.
      destruct (evicts (now w) tf); [done|].
      destruct (completes _ _ _ _ _); by injection H1 as <-.
  - destruct (settled p evs (step t e)) as [_ [Hs|Hs]]; [by left|done|..];
      rewrite Hs in Hp'; congruence.
Qed.

(** X22: in every execution from a new tracker a tracked path has been
    touched, and its [lastWrite] is the time of its latest Touch. *)
Theorem lastWrite_is_latest_touch (th poll : Duration) evs p tf :
  files (run (NewTracker th poll) evs) !! p = Some tf →
  ∃ pre n post,
    evs = pre ++ EvTouch n p :: post ∧ noTouch p post ∧ lastWrite tf = n.
Proof.
  revert tf. induction evs as [|e evs IH] using rev_ind; intros tf.
  { cbn. by rewrite lookup_empty. }
  rewrite run_app. cbn.
  set (t := run (NewTracker th poll) evs) in *.
  destruct e as [n q|w]; cbn.
  - destruct (decide (p = q)) as [<-|Hne].
    + rewrite Touch_same. intros [= <-]. exists evs, n, []. split; [done|].
      split; [intros m H; by apply elem_of_nil in H|].
      by destruct (files t !! p).
    + rewrite Touch_other by done. intros Hp.
      destruct (IH tf Hp) as (pre & m & post & -> & Hnt & Hl).
      exists pre, m, (post ++ [EvTouch n q]). split; [by rewrite <- app_assoc|].
      split; [|done]. intros k [Hk|Hk]%elem_of_app; [by apply (Hnt k)|].
      apply list_elem_of_singleton in Hk. congruence.
  - destruct (checkLocked_spec w t p) as [-> _].
    destruct (files t !! p) as [tf0|] eqn:Hp; [|done]. cbn. intros Hafter.
    destruct (IH tf0 eq_refl) as (pre & m & post & -> & Hnt & Hl).
    exists pre, m, (post ++ [EvSweep w]). split; [by rewrite <- app_assoc|].
    split.
    + intros k [Hk|Hk]%elem_of_app; [by apply (Hnt k)|].
      apply list_elem_of_singleton in Hk. discriminate.
    + rewrite <- Hl. unfold entryAfter in Hafter.
      destruct (evicts (now w) tf0); [done|].
      destruct (completes _ _ _ _ _); by injection Hafter as <-.
Qed.
End LastWrite.

Lemma lastWrite_is_latest_touch_witness :
  ∃ pre n post,
    Life.history = pre ++ EvTouch n Life.p :: post ∧
    noTouch Life.p post ∧ lastWrite Life.reported1 = n.
Proof.
  apply (lastWrite_is_latest_touch (10 * Second) (15 * Second)).
  vm_compute. reflexivity.
Defined.

(** ** The session id from the file name *)

(** The words of the specification about the shape of an id: 36
    characters, a hyphen at each of the positions 8, 13, 18 and 23, a
    hexadecimal digit of either case everywhere else. *)
Definition hexDigits : list ascii :=
  list_ascii_of_string "0123456789abcdefABCDEF".

Definition hyphenPositions : list nat := [8; 13; 18; 23]%nat.

Definition canonicalShape (u : string) : Prop :=
  String.length u = 36%nat ∧
  ∀ i c, String.get i u = Some c →
    (i ∈ hyphenPositions → c = "-"%char) ∧
    (i ∉ hyphenPositions → c ∈ hexDigits).

(** [stem] is [name] with the suffix ".jsonl" stripped, when [name] ends
    with it, and [name] itself otherwise. *)
Definition stemOf (name stem : string) : Prop :=
  name = (stem ++ ".jsonl")%string ∨
  (stem = name ∧ ∀ s, name ≠ (s ++ ".jsonl")%string).

Lemma isHyphenPos_spec i : isHyphenPos i = true ↔ i ∈ hyphenPositions.
Proof.
  unfold isHyphenPos, hyphenPositions.
  rewrite !orb_true_iff, !Nat.eqb_eq, !elem_of_cons, elem_of_nil. tauto.
Qed.

Lemma isHexDigit_spec c : isHexDigit c = true ↔ c ∈ hexDigits.
Proof.
  assert (H : isHexDigit c = bool_decide (c ∈ hexDigits)).
  { destruct c as [[] [] [] [] [] [] [] []]; vm_compute; reflexivity. }
  rewrite H. apply bool_decide_eq_true.
Qed.

Lemma canonicalShape_spec u : canonicalShape u ↔ uuidShape u.
Proof.
  unfold canonicalShape, uuidShape.
  split; intros [Hl H]; (split; [done|]); intros i c Hc;
    specialize (H i c Hc).
  - destruct H as [Hy Hn]. destruct (isHyphenPos i) eqn:E.
    + by apply Hy, isHyphenPos_spec.
    + apply isHexDigit_spec, Hn. intros Hi%isHyphenPos_spec. congruence.
  - destruct (isHyphenPos i) eqn:E; split; intros Hi.
    + done.
    + apply isHyphenPos_spec in E. done.
    + apply isHyphenPos_spec in Hi. congruence.
    + by apply isHexDigit_spec.
Qed.

Lemma substring_zero (s : string) : substring 0 0 s = "".
Proof. by destruct s. Qed.

(** A string is its first [n] bytes followed by [s[n:]]. *)
Lemma substring_split (n : nat) : ∀ s : string,
  n ≤ String.length s → s = (substring 0 n s ++ sliceFrom n s)%string.
Proof.
  unfold sliceFrom. induction n as [|n IH]; intros s Hn.
  - by rewrite substring_zero, append_nil, Nat.sub_0_r, substring_all.
  - destruct s as [|c s]; cbn in Hn; [lia|].
    cbn [substring String.length Nat.sub]. rewrite append_cons.
    f_equal. apply IH. lia.
Qed.

Lemma HasSuffix_spec (s suffix : string) :
  HasSuffix s suffix = true ↔ ∃ s', s = (s' ++ suffix)%string.
Proof.
  unfold HasSuffix. rewrite andb_true_iff, Nat.leb_le. split.
  - intros [Hle E%String.eqb_eq].
    exists (substring 0 (String.length s - String.length suffix) s).
    pose proof (substring_split (String.length s - String.length suffix) s
                  ltac:(lia)) as Hs.
    unfold sliceFrom in Hs.
    replace (String.length s - (String.length s - String.length suffix))%nat
      with (String.length suffix) in Hs by lia.
    by rewrite E in Hs.
  - intros [s' ->]. rewrite string_length_app. split; [lia|].
    replace (String.length s' + String.length suffix - String.length suffix)%nat
      with (String.length s') by lia.
    by rewrite substring_app_r, String.eqb_refl.
Qed.

(** The stem is what [strings.TrimSuffix] returns. *)
Lemma stemOf_spec (name stem : string) :
  stemOf name stem ↔ TrimSuffix name ".jsonl" = stem.
Proof.
  unfold stemOf. split.
  - intros [->|[-> Hno]]; [apply TrimSuffix_app|].
    unfold TrimSuffix. destruct (HasSuffix name ".jsonl") eqn:E; [|done].
    apply HasSuffix_spec in E as [s' E]. by destruct (Hno s').
  - intros <-. destruct (HasSuffix name ".jsonl") eqn:E.
    + apply HasSuffix_spec in E as [s' ->]. left. by rewrite TrimSuffix_app.
    + right. unfold TrimSuffix. rewrite E. split; [done|].
      intros s' Hs. assert (HasSuffix name ".jsonl" = true); [|congruence].
      apply HasSuffix_spec. by exists s'.
Qed.

(** C4: when no line of the file carries a non-empty [sessionId], the
    session id comes from the file name. Let the stem be the base name
    with the suffix ".jsonl" stripped. If the stem ends with 36 characters
    that have a hyphen at each of the positions 8, 13, 18, 23 and a
    hexadecimal digit of either case elsewhere, the id is those 36
    characters, whatever precedes them; if no ending of the stem has that
    shape, the id is the whole stem (and there is no result when the stem
    is empty). *)
Theorem sessionID_from_filename {Line Raw} (lib : Lib Line Raw)
    ro (fs : FS Line) path f stem :
  fs path = Some f →
  Forall (λ e, jsonlLine.SessionID e = "") (entries lib f) →
  stemOf (Base path) stem →
  (∀ pre u, stem = (pre ++ u)%string → canonicalShape u →
     extractSessionIDFromPath path = u ∧
     ∃ r, parseTranscript lib ro fs path = Some r ∧ SessionID r = u) ∧
  ((∀ pre u, stem = (pre ++ u)%string → ¬ canonicalShape u) →
     extractSessionIDFromPath path = stem ∧
     (stem ≠ "" →
        ∃ r, parseTranscript lib ro fs path = Some r ∧ SessionID r = stem) ∧
     (stem = "" → parseTranscript lib ro fs path = None)).
Proof.
  intros Hf Hno Hstem%stemOf_spec.
  apply entries_no_sessionID in Hno.
  pose proof (parseTranscript_open lib ro fs path f Hf) as Hp.
  cbn zeta in Hp. rewrite Hno in Hp. cbn [String.eqb] in Hp.
  destruct (extractSessionIDFromPath_spec path) as [Hyes Hnot].
  rewrite Hstem in Hyes, Hnot.
  split.
  - intros pre u -> Hu%canonicalShape_spec.
    assert (Hl : String.length u = 36%nat) by apply Hu.
    assert (Hlen : (String.length (pre ++ u) - 36)%nat = String.length pre).
    { rewrite string_length_app. lia. }
    rewrite Hlen, sliceFrom_app in Hyes.
    assert (Hx : extractSessionIDFromPath path = u).
    { apply Hyes. split; [|done]. rewrite string_length_app. lia. }
    split; [done|]. rewrite Hx in Hp.
    destruct (String.eqb_spec u "") as [E|_].
    { by destruct (uuidShape_nonempty u Hu). }
    eexists. split; [exact Hp|done].
  - intros Hnone.
    assert (Hx : extractSessionIDFromPath path = stem).
    { apply Hnot. intros [Hle Hu].
      apply (Hnone (substring 0 (String.length stem - 36) stem)
                   (sliceFrom (String.length stem - 36) stem)).
      - apply substring_split. lia.
      - by apply canonicalShape_spec. }
    split; [done|]. rewrite Hx in Hp. split.
    + intros Hne. destruct (String.eqb_spec stem ""); [done|].
      eexists. split; [exact Hp|done].
    + intros He. by destruct (String.eqb_spec stem "").
Qed.

Lemma sessionID_from_filename_witness :
  extractSessionIDFromPath Examples.agentPath
  = "abcdef01-2345-6789-abcd-ef0123456789" ∧
  ∃ r, parseTranscript GoJSON.lib GoJSON.ascending
         (Examples.disk1 Examples.agentPath Examples.noID) Examples.agentPath
       = Some r ∧
       SessionID r = "abcdef01-2345-6789-abcd-ef0123456789".
Proof.
  refine (proj1 (sessionID_from_filename GoJSON.lib GoJSON.ascending
            (Examples.disk1 Examples.agentPath Examples.noID)
            Examples.agentPath Examples.noID
            "agent-abcdef01-2345-6789-abcd-ef0123456789" eq_refl _ _)
          "agent-" "abcdef01-2345-6789-abcd-ef0123456789" eq_refl _).
  - vm_compute. repeat constructor.
  - left. reflexivity.
  - apply canonicalShape_spec, isUUIDLike_spec. reflexivity.
Defined.
